(** * Lighthouse batch runner: a shallow embedding and its properties

    The repository holds two variants of one program:
    - [src/index.js], the sequential runner with retries ([Module IndexJs]);
    - [src/unnamed/part_000], the batched runner ([Module BatchJs]).

    JavaScript values, the file store, the external collaborators (browser
    launcher, audit engine, clock, [URL] constructor) and the control effects
    ([throw], [process.exit]) are modelled explicitly.  Console output is not
    part of the modelled state. *)

From stdpp Require Import gmap strings list fin_maps pretty.
From Stdlib Require Import Ascii ZArith QArith.QArith_base QArith.Qround.

Local Open Scope Z_scope.

(** ** JavaScript values *)

(** The values that reach the fields of a result record: [undefined],
    [null], integers (every number stored in a record went through
    [Math.round]) and strings. *)
Inductive JsVal : Type :=
| JUndefined
| JNull
| JNum (n : Z)
| JStr (s : string).

#[global] Instance JsVal_eq_dec : EqDecision JsVal.
Proof. solve_decision. Defined.

(** [ToBoolean]: what [!v], [v ? a : b] and [v || d] test. *)
Definition truthy (v : JsVal) : bool :=
  match v with
  | JUndefined | JNull => false
  | JNum n => negb (n =? 0)
  | JStr s => negb (String.eqb s "")
  end.

(** [a || b] *)
Definition jsOr (a b : JsVal) : JsVal := if truthy a then a else b.

(** [ToString], as applied by a template literal. *)
Definition jsToString (v : JsVal) : string :=
  match v with
  | JUndefined => "undefined"
  | JNull => "null"
  | JNum n => pretty n
  | JStr s => s
  end.

(** An [Error] object; only its [message] is ever read. *)
Record JsError : Type := mkError { message : string }.

(** ** Strings *)

Definition newline : ascii := "010"%char.

(** [s.split("\n")] *)
Fixpoint splitLines (s : string) : list string :=
  match s with
  | EmptyString => [EmptyString]
  | String c rest =>
      if Ascii.eqb c newline then EmptyString :: splitLines rest
      else match splitLines rest with
           | h :: t => String c h :: t
           | [] => [String c EmptyString]
           end
  end.

Fixpoint trimStart (s : string) : string :=
  match s with
  | EmptyString => EmptyString
  | String c rest => if Ascii.is_space c then trimStart rest else s
  end.

(** [s.trim()], on the ASCII white space characters. *)
Definition trim (s : string) : string :=
  String.rev (trimStart (String.rev (trimStart s))).

(** [s.startsWith(p)] *)
Definition startsWith (p s : string) : bool := String.prefix p s.

(** [s.replace(/[..]/g, by)] for a character class [cls]. *)
Fixpoint replaceAll (cls : ascii -> bool) (by_ : ascii) (s : string) : string :=
  match s with
  | EmptyString => EmptyString
  | String c rest =>
      String (if cls c then by_ else c) (replaceAll cls by_ rest)
  end.

(** [xs.join(sep)] on an array of strings. *)
Fixpoint join (sep : string) (xs : list string) : string :=
  match xs with
  | [] => ""
  | [x] => x
  | x :: rest => x +:+ sep +:+ join sep rest
  end.

(** [xs.slice(start, end)] with JavaScript's treatment of negative and
    out-of-range bounds. *)
Definition sliceBound (len k : Z) : Z :=
  if k <? 0 then Z.max (len + k) 0 else Z.min k len.

Definition slice {A} (xs : list A) (start stop : Z) : list A :=
  let len := Z.of_nat (length xs) in
  let from := sliceBound len start in
  let to := sliceBound len stop in
  take (Z.to_nat (to - from)) (drop (Z.to_nat from) xs).

(** ** Result records *)

(** The object literals built by both runners.  A field that a literal
    leaves out reads as [undefined]. *)
Record AuditResult : Type := mkResult {
  url : string;
  Performance : JsVal;
  Accessibility : JsVal;
  BestPractices : JsVal;
  SEO : JsVal;
  error : JsVal
}.

Definition NA : JsVal := JStr "N/A".

(** ** External collaborators *)

(** What [new URL(s)] exposes to the program. *)
Record URL : Type := mkURL { hostname : string }.

(** A running browser as returned by [launch]: its debugging port and an
    identity (the step at which it was started). *)
Record Chrome : Type := mkChrome { port : Z; browserId : nat }.

#[global] Instance Chrome_eq_dec : EqDecision Chrome.
Proof. solve_decision. Defined.

(** One category of [lhr.categories]; [score] is a number or [null].
    Scores are exact rationals here: binary floating point rounding of
    [score * 100] is not modelled. *)
Record Category : Type := mkCategory { score : option Q }.

(** [lhr.categories]: a category the engine omits is [None]. *)
Record Categories : Type := mkCategories {
  performance : option Category;
  accessibility : option Category;
  best_practices : option Category;
  seo : option Category
}.

(** The resolved value of [lighthouse(...)]: [report] holds the two
    documents, [lhr] the categories. *)
Record RunnerResult : Type := mkRunnerResult {
  report : string * string;
  lhr : Categories
}.

Inductive LaunchOutcome : Type :=
| Launched (p : Z)
| LaunchRejected (e : JsError).

Inductive EngineOutcome : Type :=
| EngineResolved (r : RunnerResult)
| EngineRejected (e : JsError).

(** The collaborators.  Each answer may depend on the step at which the
    call is made, so every sequence of outcomes is covered. *)
Record Env : Type := mkEnv {
  URL_new : string -> option URL;               (* [None]: throws TypeError *)
  chrome_launch : nat -> LaunchOutcome;
  lighthouse : nat -> string -> EngineOutcome;
  chrome_kill : nat -> option JsError;          (* [Some e]: kill rejects *)
  Date_toISOString : nat -> string;
  schedule : nat -> nat      (* which pending continuation the event loop resumes *)
}.

(** ** World, observable events and the effect monad *)

Inductive Event : Type :=
| EvLaunch (c : Chrome)
| EvLaunchFailed
| EvLighthouse (u : string) (p : Z)
| EvKill (c : Chrome)
| EvSleep (ms : Z).

#[global] Instance Event_eq_dec : EqDecision Event.
Proof. solve_decision. Defined.

Record World : Type := mkWorld {
  files : gmap string string;
  dirs : gset string;
  trace : list Event;
  tick : nat
}.

Inductive Outcome (A : Type) : Type :=
| Return (a : A)
| Throw (e : JsError)
| Exit (code : Z).

Arguments Return {A} a.
Arguments Throw {A} e.
Arguments Exit {A} code.

Definition M (A : Type) : Type := World -> Outcome A * World.

Definition ret {A} (a : A) : M A := fun w => (Return a, w).

Definition throw {A} (e : JsError) : M A := fun w => (Throw e, w).

(** [process.exit(code)] *)
Definition process_exit {A} (code : Z) : M A := fun w => (Exit code, w).

Definition bind {A B} (c : M A) (k : A -> M B) : M B :=
  fun w =>
    match c w with
    | (Return a, w1) => k a w1
    | (Throw e, w1) => (Throw e, w1)
    | (Exit n, w1) => (Exit n, w1)
    end.

(** [try { c } catch (e) { h e }] *)
Definition tryCatch {A} (c : M A) (h : JsError -> M A) : M A :=
  fun w =>
    match c w with
    | (Throw e, w1) => h e w1
    | r => r
    end.

(** [try { c } finally { f }]: [f] runs after a return and after a throw;
    when [f] itself throws, that error replaces the outcome of [c]. *)
Definition tryFinally {A} (c : M A) (f : M unit) : M A :=
  fun w =>
    match c w with
    | (Exit n, w1) => (Exit n, w1)
    | (r, w1) =>
        match f w1 with
        | (Return _, w2) => (r, w2)
        | (Throw e, w2) => (Throw e, w2)
        | (Exit n, w2) => (Exit n, w2)
        end
    end.

Declare Scope js_scope.
Delimit Scope js_scope with js.
Notation "x <- c ;; k" := (bind c (fun x => k))
  (at level 100, c at next level, right associativity) : js_scope.
Notation "c ;;; k" := (bind c (fun _ => k))
  (at level 100, right associativity) : js_scope.
Local Open Scope js_scope.

Definition emit (e : Event) (w : World) : World :=
  mkWorld (files w) (dirs w) (trace w ++ [e]) (S (tick w)).

(** [fs.existsSync(p)] *)
Definition existsSync (p : string) : M bool :=
  fun w => (Return (bool_decide (is_Some (files w !! p)) || bool_decide (p ∈ dirs w)), w).

Definition ENOENT (p : string) : JsError :=
  mkError ("ENOENT: no such file or directory, open '" +:+ p +:+ "'").

(** [fs.readFileSync(p, "utf-8")] *)
Definition readFileSync (p : string) : M string :=
  fun w =>
    match files w !! p with
    | Some content => (Return content, w)
    | None => (Throw (ENOENT p), w)
    end.

(** [fs.writeFileSync(p, data)]: the default flag replaces the content.
    The store accepts every write; that the parent directory of [p] is
    there, which the real call needs, is a precondition of the properties
    that depend on it ([reportsReady], [summaryWritable]). *)
Definition writeFileSync (p data : string) : M unit :=
  fun w => (Return tt, mkWorld (<[p := data]> (files w)) (dirs w) (trace w) (tick w)).

(** [fs.mkdirSync(p)] *)
Definition mkdirSync (p : string) : M unit :=
  fun w => (Return tt, mkWorld (files w) ({[p]} ∪ dirs w) (trace w) (tick w)).

(** [await new Promise(r => setTimeout(r, ms))] *)
Definition sleep (ms : Z) : M unit :=
  fun w => (Return tt, emit (EvSleep ms) w).

(** [await launch({chromeFlags: ...})] *)
Definition launch (E : Env) : M Chrome :=
  fun w =>
    match chrome_launch E (tick w) with
    | Launched p =>
        let c := mkChrome p (tick w) in (Return c, emit (EvLaunch c) w)
    | LaunchRejected e => (Throw e, emit EvLaunchFailed w)
    end.

(** [await chrome.kill()] *)
Definition kill (E : Env) (c : Chrome) : M unit :=
  fun w =>
    match chrome_kill E (tick w) with
    | None => (Return tt, emit (EvKill c) w)
    | Some e => (Throw e, emit (EvKill c) w)
    end.

(** [await lighthouse(url, options, config)] on the browser at [port].
    The options and the configuration are the same constants at every call;
    what the engine answers is left to the environment. *)
Definition runEngine (E : Env) (u : string) (p : Z) : M RunnerResult :=
  fun w =>
    match lighthouse E (tick w) u with
    | EngineResolved r => (Return r, emit (EvLighthouse u p) w)
    | EngineRejected e => (Throw e, emit (EvLighthouse u p) w)
    end.

(** [new Date().toISOString()] *)
Definition nowISO (E : Env) : M string :=
  fun w => (Return (Date_toISOString E (tick w)), w).

(** [new URL(s)] *)
Definition newURL (E : Env) (s : string) : M URL :=
  match URL_new E s with
  | Some u => ret u
  | None => throw (mkError "Invalid URL")
  end.

(** [Math.round(c.score * 100)]; [null * 100] is [0]. *)
Definition roundScore (c : Category) : JsVal :=
  match score c with
  | None => JNum 0
  | Some q => JNum (Qfloor (Qplus (Qmult q (100 # 1)) (1 # 2)))
  end.

(** [cat ? Math.round(cat.score * 100) : "N/A"] *)
Definition scoreOrNA (cat : option Category) : JsVal :=
  match cat with
  | Some c => roundScore c
  | None => NA
  end.

Definition isDot (c : ascii) : bool := Ascii.eqb c "."%char.
Definition isColonOrDot (c : ascii) : bool :=
  Ascii.eqb c ":"%char || Ascii.eqb c "."%char.

(** The text of [safeName] once the host and the clock reading are known:
    [`${host}__${stamp}`]. *)
Definition safeNameOf (host iso : string) : string :=
  replaceAll isDot "_"%char host +:+ "__" +:+ replaceAll isColonOrDot "-"%char iso.

(** [safeName(url)], the same function in both files. *)
Definition safeName (E : Env) (u : string) : M string :=
  parsed <- newURL E u ;;
  iso <- nowISO E ;;
  ret (safeNameOf (hostname parsed) iso).

(** The double quote character, as a one-character string. *)
Definition dq : string := String "034"%char EmptyString.

(** [`${v || ""}`]: one unquoted cell of a summary row. *)
Definition cell (v : JsVal) : string := jsToString (jsOr v (JStr "")).

(** The parsed command line ([program.opts()] after [parseInt]).  A count
    that does not parse makes every comparison of the retry loop false, as a
    negative count does for the loop test. *)
Record Options : Type := mkOptions {
  opt_output : string;
  opt_urls : string;
  opt_retries : Z;
  opt_timeout : Z
}.

(** ** src/index.js *)

Module IndexJs.
Section Program.

Variable E : Env.
Variable options : Options.

Definition retries : Z := opt_retries options.
Definition timeout : Z := opt_timeout options.

(** [validateUrl]: [true] when [new URL(url)] does not throw. *)
Definition validateUrl (u : string) : bool :=
  match URL_new E u with
  | Some _ => true
  | None => false
  end.

(** The lines kept from the content of the URL file. *)
Definition parseUrlFile (content : string) : list string :=
  List.filter (fun l => startsWith "http" l && validateUrl l)
    (List.map trim (splitLines content)).

Definition defaultUrls : list string :=
  [ "https://ascenten.net/culture.html";
    "https://ascenten.net/affirmative-action-policy.html" ].

(** [loadUrls], with the built-in default list as a parameter. *)
Definition loadUrlsWith (defaults : list string) : M (list string) :=
  present <- existsSync (opt_urls options) ;;
  urlList <- (if negb present
              then content <- readFileSync (opt_urls options) ;;
                   ret (parseUrlFile content)
              else ret []) ;;
  ret (match urlList with
       | [] => defaults
       | _ :: _ => urlList
       end).

Definition loadUrls : M (list string) := loadUrlsWith defaultUrls.

(** [ensureOutputDir] *)
Definition ensureOutputDir : M unit :=
  present <- existsSync "reports" ;;
  if negb present then mkdirSync "reports" else ret tt.

(** The record returned from the [catch] blocks. *)
Definition failureResult (u : string) (e : JsError) : AuditResult :=
  mkResult u NA NA NA NA (JStr (message e)).

(** The record built on the success path of [runLighthouse]. *)
Definition scoresOf (u : string) (cats : Categories) : AuditResult :=
  mkResult u
    (scoreOrNA (performance cats))
    (scoreOrNA (accessibility cats))
    (scoreOrNA (best_practices cats))
    (scoreOrNA (seo cats))
    JNull.

(** The statements of the [try] block that follow the launch. *)
Definition auditWith (u : string) (chrome : Chrome) : M AuditResult :=
  result <- runEngine E u (port chrome) ;;
  name <- safeName E u ;;
  writeFileSync ("reports/" +:+ name +:+ ".json") (fst (report result)) ;;;
  writeFileSync ("reports/" +:+ name +:+ ".html") (snd (report result)) ;;;
  ret (scoresOf u (lhr result)).

(** [runLighthouse]: the launch is the first statement of the [try]
    block; [chrome] stays [undefined] when it rejects, and the [finally]
    block kills the browser only when [chrome] is set. *)
Definition runLighthouse (u : string) : M AuditResult :=
  fun w =>
    let '(launched, w1) := launch E w in
    tryFinally
      (tryCatch
         (chrome <- (fun w' => (launched, w')) ;; auditWith u chrome)
         (fun err => ret (failureResult u err)))
      (match launched with
       | Return chrome => kill E chrome
       | _ => ret tt
       end)
      w1.

(** The [for] loop of [runLighthouseWithRetry].  [attempt] grows by one
    at each iteration, so the test [attempt <= maxRetries + 1] is false
    after [remaining] iterations, [remaining] being the number of integers
    from [attempt] to [maxRetries + 1].  Falling out of the loop returns
    [undefined] ([None]). *)
Fixpoint retryLoop (u : string) (maxRetries : Z) (remaining : nat) (attempt : Z)
  : M (option AuditResult) :=
  match remaining with
  | O => ret None
  | S remaining' =>
      if attempt <=? maxRetries + 1 then
        fun w =>
          match
            ((if 1 <? attempt then sleep 3000 else ret tt) ;;;
             runLighthouse u) w
          with
          | (Return result, w1) =>
              if negb (truthy (error result)) then (Return (Some result), w1)
              else if truthy (error result) && (attempt <=? maxRetries)
                   then retryLoop u maxRetries remaining' (attempt + 1) w1
                   else (Return (Some result), w1)
          | (Throw err, w1) =>
              if maxRetries <? attempt
              then (Return (Some (failureResult u err)), w1)
              else retryLoop u maxRetries remaining' (attempt + 1) w1
          | (Exit n, w1) => (Exit n, w1)
          end
      else ret None
  end.

Definition runLighthouseWithRetry (u : string) (maxRetries : Z)
  : M (option AuditResult) :=
  retryLoop u maxRetries (Z.to_nat (maxRetries + 1)) 1.

(** The [for ... of] loop of [runAllTests]. *)
Fixpoint testLoop (total : nat) (rest : list string) (completed : nat)
    (results : list (option AuditResult)) : M (list (option AuditResult)) :=
  match rest with
  | [] => ret results
  | u :: rest' =>
      result <- runLighthouseWithRetry u retries ;;
      (if (S completed <? total)%nat then sleep 2000 else ret tt) ;;;
      testLoop total rest' (S completed) (results ++ [result])
  end.

Definition runAllTests (urls : list string) : M (list (option AuditResult)) :=
  testLoop (length urls) urls 0%nat [].

Definition csvHeader : string := "URL,Performance,Accessibility,BestPractices,SEO,Error".

(** One element of [rows]. *)
Definition csvRow (r : AuditResult) : string :=
  dq +:+ url r +:+ dq +:+ "," +:+ cell (Performance r) +:+ "," +:+
  cell (Accessibility r) +:+ "," +:+ cell (BestPractices r) +:+ "," +:+
  cell (SEO r) +:+ "," +:+ dq +:+ cell (error r) +:+ dq.

(** [generateCSV]; reading [r.url] of an [undefined] element throws. *)
Definition generateCSV (results : list (option AuditResult)) : M string :=
  match mapM (fun r => csvRow <$> r) results with
  | Some rows =>
      let filename := opt_output options +:+ ".csv" in
      writeFileSync filename (join (String newline EmptyString) (csvHeader :: rows)) ;;;
      ret filename
  | None =>
      throw (mkError "Cannot read properties of undefined (reading 'url')")
  end.

(** [main] from the test [urls.length === 0] onwards. *)
Definition mainFrom (urls : list string) : M unit :=
  (if (length urls =? 0)%nat then process_exit 1 else ret tt) ;;;
  ensureOutputDir ;;;
  results <- runAllTests urls ;;
  csvFile <- generateCSV results ;;
  ret tt.

Definition mainWith (defaults : list string) : M unit :=
  urls <- loadUrlsWith defaults ;;
  mainFrom urls.

Definition main : M unit := mainWith defaultUrls.

(** [main().catch(error => { ...; process.exit(1) })] *)
Definition entryOf (m : M unit) : M unit :=
  tryCatch m (fun _ => process_exit 1).

Definition entry : M unit := entryOf main.

End Program.
End IndexJs.

(** ** src/unnamed/part_000 *)

Module BatchJs.
Section Program.

Variable E : Env.

(** The lines kept from the content of [urls.txt]. *)
Definition parseUrlFile (content : string) : list string :=
  List.filter (fun l => startsWith "http" l) (List.map trim (splitLines content)).

Definition defaultUrls : list string := [].

(** The top-level statements that compute [urls]. *)
Definition loadUrls : M (list string) :=
  present <- existsSync "urls.txt" ;;
  urlList <- (if present
              then content <- readFileSync "urls.txt" ;;
                   ret (parseUrlFile content)
              else ret []) ;;
  ret (match urlList with
       | [] => defaultUrls
       | _ :: _ => urlList
       end).

(** [Math.round(lhr.categories.x.score * 100)]: reading [score] of a
    category the engine left out throws. *)
Definition scoreOf (cat : option Category) : M JsVal :=
  match cat with
  | Some c => ret (roundScore c)
  | None => throw (mkError "Cannot read properties of undefined (reading 'score')")
  end.

(** The statements of [runLighthouse] after [await chrome.kill()]. *)
Definition finish (u : string) (result : RunnerResult) : M AuditResult :=
  name <- safeName E u ;;
  writeFileSync ("reports/" +:+ name +:+ ".json") (fst (report result)) ;;;
  writeFileSync ("reports/" +:+ name +:+ ".html") (snd (report result)) ;;;
  p <- scoreOf (performance (lhr result)) ;;
  a <- scoreOf (accessibility (lhr result)) ;;
  b <- scoreOf (best_practices (lhr result)) ;;
  s <- scoreOf (seo (lhr result)) ;;
  ret (mkResult u p a b s JUndefined).

(** [runLighthouse], run without interruption. *)
Definition runLighthouse (u : string) : M AuditResult :=
  chrome <- launch E ;;
  result <- runEngine E u (port chrome) ;;
  kill E chrome ;;;
  finish u result.

(** [(err) => ({ url: u, error: err.message })] *)
Definition caught (u : string) (err : JsError) : AuditResult :=
  mkResult u JUndefined JUndefined JUndefined JUndefined (JStr (message err)).

(** One element of [promises]: [runLighthouse(u).catch(...)], suspended at
    one of its three [await]s or settled. *)
Inductive Job : Type :=
| Launching (u : string)
| Auditing (u : string) (chrome : Chrome)
| Killing (u : string) (chrome : Chrome) (result : RunnerResult)
| Settled (r : AuditResult).

Definition settleOnThrow (u : string) (c : M Job) : M Job :=
  tryCatch c (fun err => ret (Settled (caught u err))).

(** Resume a job at the completion of the operation it awaits and run it
    to its next [await] or to its end. *)
Definition resume (j : Job) : M Job :=
  match j with
  | Launching u =>
      settleOnThrow u (chrome <- launch E ;; ret (Auditing u chrome))
  | Auditing u chrome =>
      settleOnThrow u (result <- runEngine E u (port chrome) ;;
                       ret (Killing u chrome result))
  | Killing u chrome result =>
      settleOnThrow u (kill E chrome ;;; r <- finish u result ;; ret (Settled r))
  | Settled r => ret j
  end.

Definition pending (j : Job) : bool :=
  match j with
  | Settled _ => false
  | _ => true
  end.

(** Positions of the jobs that still await something. *)
Fixpoint pendingFrom (i : nat) (jobs : list Job) : list nat :=
  match jobs with
  | [] => []
  | j :: rest => if pending j then i :: pendingFrom (S i) rest
                 else pendingFrom (S i) rest
  end.

(** The event loop under [Promise.all]: while a job is pending, the
    environment chooses which one is resumed.  The settled value of a job
    stays at the job's own position. *)
Fixpoint eventLoop (fuel : nat) (jobs : list Job) : M (list Job) :=
  match fuel with
  | O => ret jobs
  | S fuel' =>
      match pendingFrom 0 jobs with
      | [] => ret jobs
      | i0 :: more =>
          fun w =>
            let i := nth (schedule E (tick w) `mod` length (i0 :: more))%nat
                         (i0 :: more) i0 in
            match jobs !! i with
            | Some j => (j' <- resume j ;; eventLoop fuel' (<[i := j']> jobs)) w
            | None => (Return jobs, w)
            end
      end
  end.

Definition settledValue (j : Job) : option AuditResult :=
  match j with
  | Settled r => Some r
  | _ => None
  end.

(** [await Promise.all(promises)]; [None] when the loop above is stopped
    before every job has settled. *)
Definition promiseAll (jobs : list Job) : M (option (list AuditResult)) :=
  jobs' <- eventLoop (3 * length jobs) jobs ;;
  ret (mapM settledValue jobs').

(** The first loop of [runInBatches]; [None] when [fuel] iterations do not
    reach the end of [urls]. *)
Fixpoint makeBatches (fuel : nat) (urls : list string) (batchSize i : Z)
  : option (list (list string)) :=
  if i <? Z.of_nat (length urls) then
    match fuel with
    | O => None
    | S fuel' =>
        cons (slice urls i (i + batchSize))
          <$> makeBatches fuel' urls batchSize (i + batchSize)
    end
  else Some [].

(** The second loop of [runInBatches]. *)
Fixpoint batchLoop (batches : list (list string)) (results : list AuditResult)
  : M (option (list AuditResult)) :=
  match batches with
  | [] => ret (Some results)
  | batch :: rest =>
      settled <- promiseAll (List.map Launching batch) ;;
      match settled with
      | Some batchResults =>
          sleep 500 ;;; batchLoop rest (results ++ batchResults)
      | None => ret None
      end
  end.

(** [runInBatches(urls, batchSize)]; [None] stands for a run that does not
    come to an end. *)
Definition runInBatches (urls : list string) (batchSize : Z)
  : M (option (list AuditResult)) :=
  match makeBatches (length urls) urls batchSize 0 with
  | Some batches => batchLoop batches []
  | None => ret None
  end.

Definition csvHeader : string := "URL,Performance,Accessibility,BestPractices,SEO".

(** One element of [rows]. *)
Definition csvRow (r : AuditResult) : string :=
  dq +:+ url r +:+ dq +:+ "," +:+ cell (Performance r) +:+ "," +:+
  cell (Accessibility r) +:+ "," +:+ cell (BestPractices r) +:+ "," +:+
  cell (SEO r).

(** The statements of the closing [async] function once [results] is known. *)
Definition saveCSV (results : list AuditResult) : M unit :=
  writeFileSync "lighthouse-results.csv"
    (join (String newline EmptyString) (csvHeader :: List.map csvRow results)).

(** The whole script: the top-level statements, then the [async] function. *)
Definition script : M (option unit) :=
  urls <- loadUrls ;;
  present <- existsSync "reports" ;;
  (if negb present then mkdirSync "reports" else ret tt) ;;;
  results <- runInBatches urls 1 ;;
  match results with
  | Some rs => saveCSV rs ;;; ret (Some tt)
  | None => ret None
  end.

End Program.
End BatchJs.

(** ** Concrete inputs *)

Definition nl : string := String newline EmptyString.

(** A fragment of the behaviour of [new URL]: the host of four absolute
    URLs; every other string is rejected. *)
Definition sampleURL (s : string) : option URL :=
  if String.eqb s "https://example.com" then Some (mkURL "example.com")
  else if String.eqb s "https://good.test" then Some (mkURL "good.test")
  else if String.eqb s "http://a.b/" then Some (mkURL "a.b")
  else if String.eqb s "http://a_b/" then Some (mkURL "a_b")
  else None.

Definition sampleResult : RunnerResult :=
  mkRunnerResult ("{}", "<html></html>")
    (mkCategories (Some (mkCategory (Some (9 # 10))))
                  (Some (mkCategory (Some (95 # 100))))
                  (Some (mkCategory (Some (1 # 1))))
                  (Some (mkCategory (Some (88 # 100))))).

(** An engine that rejects every audit. *)
Definition failingEnv : Env :=
  mkEnv sampleURL (fun _ => Launched 9222)
        (fun _ _ => EngineRejected (mkError "PROTOCOL_TIMEOUT"))
        (fun _ => None) (fun _ => "2025-01-01T10:21:55.123Z") (fun n => n).

(** An engine that resolves every audit. *)
Definition passingEnv : Env :=
  mkEnv sampleURL (fun _ => Launched 9222)
        (fun _ _ => EngineResolved sampleResult)
        (fun _ => None) (fun _ => "2025-01-01T10:21:55.123Z") (fun n => n).

Definition sampleOptions : Options :=
  mkOptions "lighthouse-results" "urls.txt" 2 45.

Definition emptyWorld : World := mkWorld ∅ ∅ [] 0.

(** A working directory that holds [urls.txt] with one valid line. *)
Definition worldWithUrls : World :=
  mkWorld {[ "urls.txt" := "https://example.com" +:+ nl ]} ∅ [] 0.

(** ** Observations on traces and outcomes *)

Definition isLaunchCall (e : Event) : bool :=
  match e with
  | EvLaunch _ | EvLaunchFailed => true
  | _ => false
  end.

(** Calls to [launch] recorded in a trace, resolved or rejected. *)
Definition launchCalls (evs : list Event) : nat :=
  length (List.filter isLaunchCall evs).

(** Invocations of the audit engine recorded in a trace. *)
Definition engineCalls (evs : list Event) : nat :=
  length (List.filter (fun e => match e with EvLighthouse _ _ => true | _ => false end) evs).

(** The browsers started, and the browsers killed, in order. *)
Definition launchedIn (evs : list Event) : list Chrome :=
  omap (fun e => match e with EvLaunch c => Some c | _ => None end) evs.

Definition killedIn (evs : list Event) : list Chrome :=
  omap (fun e => match e with EvKill c => Some c | _ => None end) evs.

(** An attempt fails, as the retry loop sees it, when [runLighthouse]
    hands back a record whose [error] is truthy, or throws: this is the test
    [!result.error] of the loop.  A rejection whose message is the empty
    string gives a failure record whose [error] is [""], which the loop
    takes for a success. *)
Definition attemptFails (o : Outcome AuditResult) : Prop :=
  match o with
  | Return r => truthy (error r) = true
  | Throw _ => True
  | Exit _ => False
  end.

(** The [error] a failed attempt carries. *)
Definition errorOfAttempt (o : Outcome AuditResult) : JsVal :=
  match o with
  | Return r => error r
  | Throw e => JStr (message e)
  | Exit _ => JUndefined
  end.

(** The URL a job of the batched runner works on. *)
Definition jobUrl (j : BatchJs.Job) : string :=
  match j with
  | BatchJs.Launching u | BatchJs.Auditing u _ | BatchJs.Killing u _ _ => u
  | BatchJs.Settled r => url r
  end.

(** The [await]s a job still has before it. *)
Definition awaitsLeft (j : BatchJs.Job) : nat :=
  match j with
  | BatchJs.Launching _ => 3
  | BatchJs.Auditing _ _ => 2
  | BatchJs.Killing _ _ _ => 1
  | BatchJs.Settled _ => 0
  end.

(** The launch or the audit of [u], started in [w], rejects with [e]. *)
Definition rejectsWith (E : Env) (u : string) (w : World) (e : JsError) : Prop :=
  chrome_launch E (tick w) = LaunchRejected e
  \/ exists p, chrome_launch E (tick w) = Launched p
              /\ lighthouse E (S (tick w)) u = EngineRejected e.

(** The browser is up but the engine rejects with an empty message. *)
Definition silentEnv : Env :=
  mkEnv sampleURL (fun _ => Launched 9222)
        (fun _ _ => EngineRejected (mkError ""))
        (fun _ => None) (fun _ => "2025-01-01T10:21:55.123Z") (fun n => n).

(** The audit resolves but killing the browser rejects. *)
Definition stuckEnv : Env :=
  mkEnv sampleURL (fun _ => Launched 9222)
        (fun _ _ => EngineResolved sampleResult)
        (fun _ => Some (mkError "Chrome could not be killed"))
        (fun _ => "2025-01-01T10:21:55.123Z") (fun n => n).

(** The record [runLighthouseWithRetry] makes of the attempt it stops at. *)
Definition recordOfAttempt (u : string) (o : Outcome AuditResult) : AuditResult :=
  match o with
  | Return r => r
  | Throw e => IndexJs.failureResult u e
  | Exit _ => IndexJs.failureResult u (mkError "")
  end.


(** [c] occurs in [s]. *)
Fixpoint contains (c : ascii) (s : string) : bool :=
  match s with
  | EmptyString => false
  | String d rest => Ascii.eqb d c || contains c rest
  end.






(** The [await]s the jobs of a batch still have before them. *)
Definition awaitsTotal (jobs : list BatchJs.Job) : nat :=
  sum_list (awaitsLeft <$> jobs).

(** From [w] to [w'] the browsers killed are the browsers started, in the
    same order. *)
Definition pairedSince (w w' : World) : Prop :=
  exists seg, trace w' = trace w ++ seg /\ killedIn seg = launchedIn seg.

(** ** Further observations *)

Definition isPause (ms : Z) (e : Event) : bool :=
  match e with
  | EvSleep m => m =? ms
  | _ => false
  end.

(** Pauses of [ms] milliseconds recorded in a trace. *)
Definition pauses (ms : Z) (evs : list Event) : nat :=
  length (List.filter (isPause ms) evs).

(** The world in which attempt number [k] (counted from 0) of the retry
    loop for [u] starts, when the loop was entered in [w] and went round
    after each earlier attempt: the attempt before it has run and the pause
    of three seconds has elapsed. *)
Fixpoint attemptStart (E : Env) (u : string) (w : World) (k : nat) : World :=
  match k with
  | O => w
  | S k' => emit (EvSleep 3000) (snd (IndexJs.runLighthouse E u (attemptStart E u w k')))
  end.

(** An engine that rejects the audits started before step 5 and resolves
    the later ones. *)
Definition flakyEnv : Env :=
  mkEnv sampleURL (fun _ => Launched 9222)
        (fun n _ => if (n <? 5)%nat then EngineRejected (mkError "PROTOCOL_TIMEOUT")
                    else EngineResolved sampleResult)
        (fun _ => None) (fun _ => "2025-01-01T10:21:55.123Z") (fun n => n).

(** Whether a job of the batched runner has its call to [launch], and its
    call to the engine, still before it. *)
Definition launchDue (j : BatchJs.Job) : nat :=
  match j with
  | BatchJs.Launching _ => 1
  | _ => 0
  end.

Definition engineDue (j : BatchJs.Job) : nat :=
  match j with
  | BatchJs.Launching _ | BatchJs.Auditing _ _ => 1
  | _ => 0
  end.

(** Browsers launched on which [kill()] has not been called yet, after
    the events [evs], [n] being such before them; and the largest number of
    them at any point on the way.  The trace records the call of [kill()],
    made whether the call then resolves or rejects: what is counted is calls,
    not browsers that have ended. *)
Definition unkilledStep (n : nat) (e : Event) : nat :=
  match e with
  | EvLaunch _ => S n
  | EvKill _ => pred n
  | _ => n
  end.

Fixpoint unkilledAfter (n : nat) (evs : list Event) : nat :=
  match evs with
  | [] => n
  | e :: rest => unkilledAfter (unkilledStep n e) rest
  end.

Fixpoint peakUnkilled (n : nat) (evs : list Event) : nat :=
  match evs with
  | [] => n
  | e :: rest => Nat.max n (peakUnkilled (unkilledStep n e) rest)
  end.

(** From [w] to [w'] every browser launched has had its [kill()] call
    before the next launch: at no point are two launched browsers without
    that call, none is at the end, and the calls of [kill()] name the
    browsers launched, in the same order. *)
Definition killedBeforeNextLaunch (w w' : World) : Prop :=
  exists seg,
    trace w' = trace w ++ seg
    /\ (peakUnkilled 0 seg <= 1)%nat
    /\ unkilledAfter 0 seg = 0%nat
    /\ killedIn seg = launchedIn seg.

(** From [w] to [w'] the directories are the same and no file has gone. *)
Definition keepsPaths (w w' : World) : Prop :=
  dirs w' = dirs w
  /\ forall p, is_Some (files w !! p) -> is_Some (files w' !! p).

(** The engine resolves without the category [seo]. *)
Definition partialEnv : Env :=
  mkEnv sampleURL (fun _ => Launched 9222)
        (fun _ _ => EngineResolved
           (mkRunnerResult ("{}", "<html></html>")
              (mkCategories (Some (mkCategory (Some (9 # 10))))
                            (Some (mkCategory (Some (95 # 100))))
                            (Some (mkCategory (Some (1 # 1))))
                            None)))
        (fun _ => None) (fun _ => "2025-01-01T10:21:55.123Z") (fun n => n).

(** The score of a category the engine reports is [null] or a number
    from 0 to 1. *)
Definition unitScore (cat : option Category) : Prop :=
  forall c q, cat = Some c -> score c = Some q -> Qle (0 # 1) q /\ Qle q (1 # 1).

Definition unitScores (cats : Categories) : Prop :=
  unitScore (performance cats) /\ unitScore (accessibility cats)
  /\ unitScore (best_practices cats) /\ unitScore (seo cats).

(** A score field of a record: the sentinel, or an integer from 0 to 100. *)
Definition validScore (v : JsVal) : Prop :=
  v = NA \/ exists n, v = JNum n /\ 0 <= n <= 100.

(** The command line [-r -1]. *)
Definition negativeOptions : Options :=
  mkOptions "lighthouse-results" "urls.txt" (-1) 45.



(** The string is empty or starts with a character that is no white space. *)
Definition noSpaceAtHead (s : string) : Prop :=
  match s with
  | EmptyString => True
  | String c _ => Ascii.is_space c = false
  end.

(** ** Places that can be written *)

(** A working directory that holds the directory [reports] and nothing
    else. *)
Definition readyWorld : World := mkWorld ∅ {[ "reports" ]} [] 0.

(** The directory [reports] is there and nothing below it is a directory:
    a report written to [reports/<name>] finds its parent, and no directory
    in its place. *)
Definition reportsReady (w : World) : Prop :=
  "reports" ∈ dirs w /\ forall p, p ∈ dirs w -> startsWith "reports/" p = false.

(** The summary [<output>.csv] goes to the working directory itself (the
    name has no [/]) and no directory has its name. *)
Definition summaryWritable (options : Options) (w : World) : Prop :=
  contains "/"%char (opt_output options) = false
  /\ (opt_output options +:+ ".csv") ∉ dirs w.

(** * Properties *)

(** ** The effect monad *)

Lemma bind_Return {A B} (c : M A) (k : A -> M B) w a w1 :
  c w = (Return a, w1) -> bind c k w = k a w1.
Proof. intros H. unfold bind. rewrite H. reflexivity. Qed.

Lemma bind_Throw {A B} (c : M A) (k : A -> M B) w e w1 :
  c w = (Throw e, w1) -> bind c k w = (Throw e, w1).
Proof. intros H. unfold bind. rewrite H. reflexivity. Qed.

Lemma bind_Exit {A B} (c : M A) (k : A -> M B) w n w1 :
  c w = (Exit n, w1) -> bind c k w = (Exit n, w1).
Proof. intros H. unfold bind. rewrite H. reflexivity. Qed.

(** ** URL loading *)

Section LoadUrls.

Variable E : Env.
Variable options : Options.

(** In [index.js] a URL file that is present is never read: the default
    list is returned. *)
Lemma index_loadUrls_present defaults w content :
  files w !! opt_urls options = Some content ->
  IndexJs.loadUrlsWith E options defaults w = (Return defaults, w).
Proof.
  intros Hfile. unfold IndexJs.loadUrlsWith, bind, existsSync.
  rewrite Hfile. rewrite bool_decide_eq_true_2 by eauto.
  reflexivity.
Qed.

(** In [index.js] a URL file that is absent is read, and the read throws. *)
Lemma index_loadUrls_absent defaults w :
  files w !! opt_urls options = None ->
  opt_urls options ∉ dirs w ->
  IndexJs.loadUrlsWith E options defaults w = (Throw (ENOENT (opt_urls options)), w).
Proof.
  intros Hfile Hdir. unfold IndexJs.loadUrlsWith, bind, existsSync, readFileSync.
  rewrite Hfile.
  rewrite bool_decide_eq_false_2 by (intros [? ?]; discriminate).
  rewrite bool_decide_eq_false_2 by assumption.
  cbn. rewrite Hfile. reflexivity.
Qed.

(** The batched script reads [urls.txt] when it is present. *)
Lemma batch_loadUrls_present w content :
  files w !! "urls.txt" = Some content ->
  BatchJs.loadUrls w =
    (Return (match BatchJs.parseUrlFile content with
             | [] => BatchJs.defaultUrls
             | _ :: _ => BatchJs.parseUrlFile content
             end), w).
Proof.
  intros Hfile. unfold BatchJs.loadUrls, bind, existsSync, readFileSync.
  rewrite Hfile. rewrite bool_decide_eq_true_2 by eauto.
  cbn. rewrite Hfile. reflexivity.
Qed.

(** The batched script does not read [urls.txt] when it is absent. *)
Lemma batch_loadUrls_absent w :
  files w !! "urls.txt" = None ->
  "urls.txt" ∉ dirs w ->
  BatchJs.loadUrls w = (Return BatchJs.defaultUrls, w).
Proof.
  intros Hfile Hdir. unfold BatchJs.loadUrls, bind, existsSync.
  rewrite Hfile.
  rewrite bool_decide_eq_false_2 by (intros [? ?]; discriminate).
  rewrite bool_decide_eq_false_2 by assumption.
  reflexivity.
Qed.

End LoadUrls.

(** C1 (the code departs from the claim): [loadUrls] of [index.js] tests
    [!fs.existsSync(...)].  With [urls.txt] present and holding the valid
    line [https://example.com], whose parse is the one-element list, the
    function returns the built-in default list; with [urls.txt] absent it
    attempts the read and throws. *)
Theorem C1_index_loadUrls_inverted :
  IndexJs.parseUrlFile passingEnv ("https://example.com" +:+ nl) = ["https://example.com"]
  /\ IndexJs.loadUrls passingEnv sampleOptions worldWithUrls
     = (Return IndexJs.defaultUrls, worldWithUrls)
  /\ IndexJs.loadUrls passingEnv sampleOptions emptyWorld
     = (Throw (ENOENT "urls.txt"), emptyWorld).
Proof.
  split; [vm_compute; reflexivity |].
  split.
  - apply index_loadUrls_present with (content := "https://example.com" +:+ nl).
    vm_compute. reflexivity.
  - apply index_loadUrls_absent.
    + vm_compute. reflexivity.
    + cbn. set_solver.
Qed.

(** ** The audit adapter of [index.js] *)

Section IndexAdapter.

Variable E : Env.
Variable u : string.

Lemma launchCalls_app (a b : list Event) :
  launchCalls (a ++ b) = (launchCalls a + launchCalls b)%nat.
Proof. unfold launchCalls. rewrite List.filter_app, length_app. reflexivity. Qed.

Lemma launchedIn_app (a b : list Event) :
  launchedIn (a ++ b) = launchedIn a ++ launchedIn b.
Proof. apply omap_app. Qed.

Lemma killedIn_app (a b : list Event) :
  killedIn (a ++ b) = killedIn a ++ killedIn b.
Proof. apply omap_app. Qed.

(** The [try] block after a resolved launch, case by case. *)
Lemma index_auditWith_eq c w :
  IndexJs.auditWith E u c w =
  let w1 := emit (EvLighthouse u (port c)) w in
  match lighthouse E (tick w) u with
  | EngineRejected e => (Throw e, w1)
  | EngineResolved res =>
      match URL_new E u with
      | None => (Throw (mkError "Invalid URL"), w1)
      | Some parsed =>
          let name := safeNameOf (hostname parsed) (Date_toISOString E (tick w1)) in
          (Return (IndexJs.scoresOf u (lhr res)),
           mkWorld (<["reports/" +:+ name +:+ ".html" := snd (report res)]>
                      (<["reports/" +:+ name +:+ ".json" := fst (report res)]> (files w1)))
                   (dirs w1) (trace w1) (tick w1))
      end
  end.
Proof.
  unfold IndexJs.auditWith, bind, runEngine, safeName, newURL.
  destruct (lighthouse E (tick w) u); [| reflexivity].
  destruct (URL_new E u); reflexivity.
Qed.

(** [runLighthouse], case by case on what the collaborators answer. *)
Lemma index_runLighthouse_eq w :
  IndexJs.runLighthouse E u w =
  match chrome_launch E (tick w) with
  | LaunchRejected e => (Return (IndexJs.failureResult u e), emit EvLaunchFailed w)
  | Launched p =>
      let c := mkChrome p (tick w) in
      let '(o, w2) := IndexJs.auditWith E u c (emit (EvLaunch c) w) in
      let r := match o with
               | Return r => r
               | Throw e => IndexJs.failureResult u e
               | Exit _ => IndexJs.failureResult u (mkError "")
               end in
      match chrome_kill E (tick w2) with
      | None => (Return r, emit (EvKill c) w2)
      | Some ek => (Throw ek, emit (EvKill c) w2)
      end
  end.
Proof.
  unfold IndexJs.runLighthouse, launch.
  destruct (chrome_launch E (tick w)) as [p | e]; [| reflexivity].
  unfold tryFinally, tryCatch, bind, kill.
  rewrite index_auditWith_eq. cbn zeta.
  destruct (lighthouse E _ u); [destruct (URL_new E u) |];
    cbn; destruct (chrome_kill E _); reflexivity.
Qed.

(** [runLighthouse] never ends the process, and a record it returns is
    about the URL it was given. *)
Lemma index_runLighthouse_url w :
  match fst (IndexJs.runLighthouse E u w) with
  | Return r => url r = u
  | Throw _ => True
  | Exit _ => False
  end.
Proof.
  rewrite index_runLighthouse_eq.
  destruct (chrome_launch E (tick w)); [| reflexivity].
  cbn zeta. rewrite index_auditWith_eq. cbn zeta.
  destruct (lighthouse E _ u); [destruct (URL_new E u) |];
    cbn; destruct (chrome_kill E _); cbn; auto.
Qed.

(** One call makes one call to [launch], at most one call to the engine,
    and kills exactly the browsers it started. *)
Lemma index_runLighthouse_trace w :
  exists seg,
    trace (snd (IndexJs.runLighthouse E u w)) = trace w ++ seg
    /\ launchCalls seg = 1%nat
    /\ (engineCalls seg <= 1)%nat
    /\ killedIn seg = launchedIn seg.
Proof.
  rewrite index_runLighthouse_eq.
  destruct (chrome_launch E (tick w)) as [p | e].
  - cbn zeta. rewrite index_auditWith_eq. cbn zeta.
    exists [EvLaunch (mkChrome p (tick w)); EvLighthouse u p; EvKill (mkChrome p (tick w))].
    destruct (lighthouse E _ u); [destruct (URL_new E u) |];
      cbn; destruct (chrome_kill E _); cbn;
      rewrite <- !app_assoc; cbn; auto.
  - exists [EvLaunchFailed]. cbn. auto.
Qed.

(** When killing the browser does not reject, [runLighthouse] returns. *)
Lemma index_runLighthouse_returns w :
  (forall n, chrome_kill E n = None) ->
  exists r w', IndexJs.runLighthouse E u w = (Return r, w').
Proof.
  intros Hkill. rewrite index_runLighthouse_eq.
  destruct (chrome_launch E (tick w)); [| eauto].
  cbn zeta. destruct (IndexJs.auditWith E u _ _) as [o w2].
  rewrite Hkill. eauto.
Qed.

(** A rejected launch is reported as a failure record. *)
Lemma index_runLighthouse_launch_rejected w e :
  chrome_launch E (tick w) = LaunchRejected e ->
  IndexJs.runLighthouse E u w
  = (Return (IndexJs.failureResult u e), emit EvLaunchFailed w).
Proof. intros H. rewrite index_runLighthouse_eq, H. reflexivity. Qed.

(** A rejected audit is reported as a failure record, unless the kill
    that follows rejects too. *)
Lemma index_runLighthouse_engine_rejected w p e :
  chrome_launch E (tick w) = Launched p ->
  lighthouse E (S (tick w)) u = EngineRejected e ->
  chrome_kill E (S (S (tick w))) = None ->
  fst (IndexJs.runLighthouse E u w) = Return (IndexJs.failureResult u e).
Proof.
  intros HL HE HK. rewrite index_runLighthouse_eq, HL.
  cbn zeta. rewrite index_auditWith_eq. cbn. rewrite HE. cbn.
  rewrite HK. reflexivity.
Qed.

End IndexAdapter.

(** ** The audit adapter of the batched script *)

Section BatchAdapter.

Variable E : Env.
Variable u : string.

(** In the batched script a rejected audit leaves [runLighthouse] as an
    exception, before [chrome.kill()] is reached. *)
Lemma batch_runLighthouse_engine_rejected w p e :
  chrome_launch E (tick w) = Launched p ->
  lighthouse E (S (tick w)) u = EngineRejected e ->
  BatchJs.runLighthouse E u w
  = (Throw e, emit (EvLighthouse u p) (emit (EvLaunch (mkChrome p (tick w))) w)).
Proof.
  intros HL HE. unfold BatchJs.runLighthouse, bind, launch, runEngine.
  rewrite HL. cbn. rewrite HE. reflexivity.
Qed.

Lemma batch_runLighthouse_launch_rejected w e :
  chrome_launch E (tick w) = LaunchRejected e ->
  BatchJs.runLighthouse E u w = (Throw e, emit EvLaunchFailed w).
Proof.
  intros HL. unfold BatchJs.runLighthouse, bind, launch.
  rewrite HL. reflexivity.
Qed.

(** Resuming a fresh job three times in a row is
    [runLighthouse(u).catch(...)] run without interruption. *)
Lemma batch_resume_thrice w :
  (j1 <- BatchJs.resume E (BatchJs.Launching u) ;;
   j2 <- BatchJs.resume E j1 ;;
   BatchJs.resume E j2) w
  = (r <- tryCatch (BatchJs.runLighthouse E u)
                   (fun err => ret (BatchJs.caught u err)) ;;
     ret (BatchJs.Settled r)) w.
Proof.
  unfold BatchJs.resume, BatchJs.settleOnThrow, BatchJs.runLighthouse,
    tryCatch, bind, launch, runEngine, kill.
  destruct (chrome_launch E (tick w)); [| reflexivity].
  cbn. destruct (lighthouse E _ u); [| reflexivity].
  cbn. destruct (chrome_kill E _); [reflexivity |].
  cbn. destruct (BatchJs.finish E u r _) as [[r' | e | n] w3]; reflexivity.
Qed.

End BatchAdapter.

(** ** C4: what the adapter hands back on failure *)

(** C4 (as amended): in [index.js], as long as [chrome.kill()] does not
    reject, [runLighthouse] returns a record for the URL it was given
    whatever the launch and the engine answer; when the launch or the
    engine rejects with [e] the record has all four scores ["N/A"] and
    [error] equal to [e.message].  In the batched script [runLighthouse]
    propagates the rejection of the engine, and the [catch] of
    [runInBatches] turns it into [{url, error: e.message}] with no score
    fields. *)
Theorem C4_adapter_failure_record (E : Env) (u : string) (w : World) :
  (forall n, chrome_kill E n = None) ->
  (exists r w', IndexJs.runLighthouse E u w = (Return r, w') /\ url r = u)
  /\ (forall e, rejectsWith E u w e ->
        fst (IndexJs.runLighthouse E u w)
        = Return (mkResult u NA NA NA NA (JStr (message e))))
  /\ (forall p e,
        chrome_launch E (tick w) = Launched p ->
        lighthouse E (S (tick w)) u = EngineRejected e ->
        fst (BatchJs.runLighthouse E u w) = Throw e
        /\ fst (tryCatch (BatchJs.runLighthouse E u)
                         (fun err => ret (BatchJs.caught u err)) w)
           = Return (mkResult u JUndefined JUndefined JUndefined JUndefined
                              (JStr (message e)))).
Proof.
  intros Hkill. split; [| split].
  - destruct (index_runLighthouse_returns E u w Hkill) as (r & w' & Hrun).
    exists r, w'. split; [exact Hrun |].
    pose proof (index_runLighthouse_url E u w) as Hurl.
    rewrite Hrun in Hurl. exact Hurl.
  - intros e [HL | (p & HL & HE)].
    + rewrite (index_runLighthouse_launch_rejected E u w e HL). reflexivity.
    + apply (index_runLighthouse_engine_rejected E u w p e HL HE). apply Hkill.
  - intros p e HL HE.
    unfold tryCatch.
    rewrite (batch_runLighthouse_engine_rejected E u w p e HL HE).
    split; reflexivity.
Qed.

Lemma C4_adapter_failure_record_witness :
  (exists r w', IndexJs.runLighthouse failingEnv "https://example.com" emptyWorld
                = (Return r, w') /\ url r = "https://example.com")
  /\ fst (IndexJs.runLighthouse failingEnv "https://example.com" emptyWorld)
     = Return (mkResult "https://example.com" NA NA NA NA (JStr "PROTOCOL_TIMEOUT")).
Proof.
  pose proof (C4_adapter_failure_record failingEnv "https://example.com" emptyWorld
                (fun n => eq_refl)) as (Hret & Hfail & _).
  split; [exact Hret |].
  apply (Hfail (mkError "PROTOCOL_TIMEOUT")).
  right. exists 9222. split; reflexivity.
Defined.

(** C4 (the claim as stated fails): the [runLighthouse] of the batched
    script propagates a rejection of the engine; the one of [index.js]
    reports a rejection whose message is empty with an empty [error], and
    propagates a rejection of [chrome.kill()]. *)
Lemma C4_counterexample :
  fst (BatchJs.runLighthouse failingEnv "https://example.com" emptyWorld)
  = Throw (mkError "PROTOCOL_TIMEOUT")
  /\ fst (IndexJs.runLighthouse silentEnv "https://example.com" emptyWorld)
     = Return (mkResult "https://example.com" NA NA NA NA (JStr ""))
  /\ fst (IndexJs.runLighthouse stuckEnv "https://example.com" emptyWorld)
     = Throw (mkError "Chrome could not be killed").
Proof. repeat split; vm_compute; reflexivity. Qed.

(** ** C5: browsers started and browsers killed *)

(** C5 (the code departs from the claim): in the batched script
    [chrome.kill()] follows [await lighthouse(...)] outside any [finally].
    When the engine rejects, [runLighthouse] propagates with the browser it
    launched still running, and the batch that ran it ends without a kill. *)
Theorem C5_batch_runLighthouse_leaks_browser :
  fst (BatchJs.runLighthouse failingEnv "https://example.com" emptyWorld)
  = Throw (mkError "PROTOCOL_TIMEOUT")
  /\ launchedIn (trace (snd (BatchJs.runLighthouse failingEnv "https://example.com" emptyWorld)))
     = [mkChrome 9222 0]
  /\ killedIn (trace (snd (BatchJs.runLighthouse failingEnv "https://example.com" emptyWorld)))
     = []
  /\ killedIn (trace (snd (BatchJs.runInBatches failingEnv ["https://example.com"] 1 emptyWorld)))
     = []
  /\ launchedIn (trace (snd (BatchJs.runInBatches failingEnv ["https://example.com"] 1 emptyWorld)))
     = [mkChrome 9222 0].
Proof. repeat split; vm_compute; reflexivity. Qed.

(** ** The retry loop of [index.js] *)

Section Retry.

Variable E : Env.
Variable u : string.

Lemma launchCalls_sleep ms w :
  launchCalls (trace (emit (EvSleep ms) w)) = launchCalls (trace w).
Proof. unfold emit. cbn [trace]. rewrite launchCalls_app. cbn. lia. Qed.

Lemma index_runLighthouse_launchCalls w :
  launchCalls (trace (snd (IndexJs.runLighthouse E u w))) = S (launchCalls (trace w)).
Proof.
  destruct (index_runLighthouse_trace E u w) as (seg & Htr & Hone & _).
  rewrite Htr, launchCalls_app, Hone. lia.
Qed.

(** The [try] block of one iteration: the pause before a retry, then the
    attempt. *)
Lemma retry_attempt_eq attempt w :
  ((if 1 <? attempt then sleep 3000 else ret tt) ;;; IndexJs.runLighthouse E u)%js w
  = IndexJs.runLighthouse E u (if 1 <? attempt then emit (EvSleep 3000) w else w).
Proof. destruct (1 <? attempt); reflexivity. Qed.

Lemma retryLoop_step R n attempt w :
  attempt <= R + 1 ->
  IndexJs.retryLoop E u R (S n) attempt w =
  let w0 := if 1 <? attempt then emit (EvSleep 3000) w else w in
  match IndexJs.runLighthouse E u w0 with
  | (Return result, w1) =>
      if negb (truthy (error result)) then (Return (Some result), w1)
      else if truthy (error result) && (attempt <=? R)
           then IndexJs.retryLoop E u R n (attempt + 1) w1
           else (Return (Some result), w1)
  | (Throw err, w1) =>
      if R <? attempt
      then (Return (Some (IndexJs.failureResult u err)), w1)
      else IndexJs.retryLoop E u R n (attempt + 1) w1
  | (Exit code, w1) => (Exit code, w1)
  end.
Proof.
  intros Hle. cbn [IndexJs.retryLoop].
  destruct (Z.leb_spec attempt (R + 1)); [| lia].
  rewrite retry_attempt_eq. reflexivity.
Qed.

(** Whatever the attempts do, the loop ends with a record for [u] as soon
    as it may run at all. *)
Lemma retryLoop_total R n attempt w :
  attempt + Z.of_nat n = R + 1 ->
  exists r w', IndexJs.retryLoop E u R (S n) attempt w = (Return (Some r), w')
               /\ url r = u.
Proof.
  revert attempt w. induction n as [| n IH]; intros attempt w Hn;
    rewrite retryLoop_step by lia; cbn zeta;
    pose proof (index_runLighthouse_url E u
                  (if 1 <? attempt then emit (EvSleep 3000) w else w)) as Hurl;
    destruct (IndexJs.runLighthouse E u _) as [[r | e | c] w1]; cbn in Hurl;
    try contradiction.
  - destruct (truthy (error r)); cbn; [| eauto].
    destruct (Z.leb_spec attempt R); [lia | eauto].
  - destruct (Z.ltb_spec R attempt); [| lia].
    eexists _, _. split; [reflexivity | reflexivity].
  - destruct (truthy (error r)); cbn; [| eauto].
    destruct (Z.leb_spec attempt R); [| eauto].
    apply IH. lia.
  - destruct (Z.ltb_spec R attempt).
    + eexists _, _. split; [reflexivity | reflexivity].
    + apply IH. lia.
Qed.

Lemma index_runLighthouseWithRetry_total R w :
  0 <= R ->
  exists r w', IndexJs.runLighthouseWithRetry E u R w = (Return (Some r), w')
               /\ url r = u.
Proof.
  intros HR. unfold IndexJs.runLighthouseWithRetry.
  replace (Z.to_nat (R + 1)) with (S (Z.to_nat R)) by lia.
  apply retryLoop_total. lia.
Qed.

(** With a negative retry count the loop body never runs. *)
Lemma index_runLighthouseWithRetry_negative R w :
  R < 0 ->
  IndexJs.runLighthouseWithRetry E u R w = (Return None, w).
Proof.
  intros HR. unfold IndexJs.runLighthouseWithRetry.
  replace (Z.to_nat (R + 1)) with 0%nat by lia. reflexivity.
Qed.

Hypothesis every_attempt_fails :
  forall w, attemptFails (fst (IndexJs.runLighthouse E u w)).

(** When every attempt fails, the loop started at [attempt] with [n]
    further iterations allowed stops at the last one. *)
Lemma retryLoop_all_fail R n attempt w :
  attempt + Z.of_nat n = R + 1 ->
  exists wlast,
    IndexJs.retryLoop E u R (S n) attempt w
    = (Return (Some (recordOfAttempt u (fst (IndexJs.runLighthouse E u wlast)))),
       snd (IndexJs.runLighthouse E u wlast))
    /\ launchCalls (trace wlast) = (launchCalls (trace w) + n)%nat.
Proof.
  revert attempt w. induction n as [| n IH]; intros attempt w Hn;
    rewrite retryLoop_step by lia; cbn zeta;
    set (w0 := if 1 <? attempt then emit (EvSleep 3000) w else w);
    assert (Hw0 : launchCalls (trace w0) = launchCalls (trace w))
      by (subst w0; destruct (1 <? attempt); [apply launchCalls_sleep | reflexivity]);
    pose proof (every_attempt_fails w0) as Hfail;
    pose proof (index_runLighthouse_launchCalls w0) as Hcalls;
    destruct (IndexJs.runLighthouse E u w0) as [[r | e | c] w1] eqn:Hrun;
    cbn in Hfail, Hcalls; try contradiction.
  - rewrite Hfail. cbn.
    destruct (Z.leb_spec attempt R); [lia |].
    exists w0. rewrite Hrun. cbn. split; [reflexivity | lia].
  - destruct (Z.ltb_spec R attempt); [| lia].
    exists w0. rewrite Hrun. cbn. split; [reflexivity | lia].
  - rewrite Hfail. cbn.
    destruct (Z.leb_spec attempt R); [| lia].
    destruct (IH (attempt + 1) w1 ltac:(lia)) as (wlast & Heq & Hlast).
    exists wlast. split; [exact Heq | lia].
  - destruct (Z.ltb_spec R attempt); [lia |].
    destruct (IH (attempt + 1) w1 ltac:(lia)) as (wlast & Heq & Hlast).
    exists wlast. split; [exact Heq | lia].
Qed.

End Retry.

(** A rejection with a non-empty message on every attempt is a failure
    of every attempt. *)
Lemma attemptFails_when_engine_rejects (E : Env) (u : string) :
  (forall n e, chrome_launch E n = LaunchRejected e -> message e <> "") ->
  (forall n, exists e, lighthouse E n u = EngineRejected e /\ message e <> "") ->
  forall w, attemptFails (fst (IndexJs.runLighthouse E u w)).
Proof.
  intros Hlaunch Hengine w. rewrite index_runLighthouse_eq.
  destruct (chrome_launch E (tick w)) as [p | e] eqn:HL.
  - cbn zeta. rewrite index_auditWith_eq. cbn.
    destruct (Hengine (S (tick w))) as (e & -> & Hne). cbn.
    destruct (chrome_kill E _); cbn; [exact I |].
    destruct (message e); [contradiction | reflexivity].
  - cbn. specialize (Hlaunch _ _ HL).
    destruct (message e); [contradiction | reflexivity].
Qed.

(** ** C2: the retry bound *)

(** C2 (as amended): for every URL and every [maxRetries = R >= 0],
    when every attempt fails in the way the loop tests for ([runLighthouse]
    returns a record whose [error] is truthy, so a non-empty message, or
    throws), [runLighthouseWithRetry] makes exactly [R + 1] attempts (one
    call to [launch] each) and returns the record of the last one: the
    attempt started in [wlast], after [R] earlier ones, whose [error] the
    returned record carries.  With [R = 0] that is exactly one attempt. *)
Theorem C2_retry_bound (E : Env) (u : string) (R : Z) (w : World) :
  0 <= R ->
  (forall w', attemptFails (fst (IndexJs.runLighthouse E u w'))) ->
  exists res wlast olast wfinal,
    IndexJs.runLighthouseWithRetry E u R w = (Return (Some res), wfinal)
    /\ launchCalls (trace wfinal) = (launchCalls (trace w) + (Z.to_nat R + 1))%nat
    /\ IndexJs.runLighthouse E u wlast = (olast, wfinal)
    /\ launchCalls (trace wlast) = (launchCalls (trace w) + Z.to_nat R)%nat
    /\ attemptFails olast
    /\ url res = u
    /\ error res = errorOfAttempt olast.
Proof.
  intros HR Hfail. unfold IndexJs.runLighthouseWithRetry.
  replace (Z.to_nat (R + 1)) with (S (Z.to_nat R)) by lia.
  destruct (retryLoop_all_fail E u Hfail R (Z.to_nat R) 1 w ltac:(lia))
    as (wlast & Heq & Hlast).
  pose proof (Hfail wlast) as Hlastfail.
  pose proof (index_runLighthouse_launchCalls E u wlast) as Hcalls.
  pose proof (index_runLighthouse_url E u wlast) as Hurl.
  destruct (IndexJs.runLighthouse E u wlast) as [olast wfinal] eqn:Hrun.
  cbn [fst snd] in *.
  exists (recordOfAttempt u olast), wlast, olast, wfinal.
  repeat split; try assumption; try lia.
  - destruct olast; cbn in *; [assumption | reflexivity | contradiction].
  - destruct olast; cbn in *; [reflexivity | reflexivity | contradiction].
Qed.

Lemma C2_retry_bound_witness :
  exists res wlast olast wfinal,
    IndexJs.runLighthouseWithRetry failingEnv "https://example.com" 2 emptyWorld
    = (Return (Some res), wfinal)
    /\ launchCalls (trace wfinal) = (launchCalls (trace emptyWorld) + (Z.to_nat 2 + 1))%nat
    /\ IndexJs.runLighthouse failingEnv "https://example.com" wlast = (olast, wfinal)
    /\ launchCalls (trace wlast) = (launchCalls (trace emptyWorld) + Z.to_nat 2)%nat
    /\ attemptFails olast
    /\ url res = "https://example.com"
    /\ error res = errorOfAttempt olast.
Proof.
  apply (C2_retry_bound failingEnv "https://example.com" 2 emptyWorld).
  - lia.
  - intros w'. rewrite index_runLighthouse_eq. vm_compute. reflexivity.
Defined.

(** C2 (the claim as stated fails): an engine that rejects every audit
    with an empty message makes every attempt fail, each of the three
    attempts a retry count of 2 allows ending in the failure record with all
    four scores ["N/A"]; yet [runLighthouseWithRetry] stops after the first
    attempt, with one call to [launch] and no pause of three seconds,
    because the [error] of that record is the empty string and
    [!result.error] holds. *)
Lemma C2_counterexample :
  (forall w, rejectsWith silentEnv "https://example.com" w (mkError ""))
  /\ fst (IndexJs.runLighthouse silentEnv "https://example.com"
            (attemptStart silentEnv "https://example.com" emptyWorld 0))
     = Return (mkResult "https://example.com" NA NA NA NA (JStr ""))
  /\ fst (IndexJs.runLighthouse silentEnv "https://example.com"
            (attemptStart silentEnv "https://example.com" emptyWorld 1))
     = Return (mkResult "https://example.com" NA NA NA NA (JStr ""))
  /\ fst (IndexJs.runLighthouse silentEnv "https://example.com"
            (attemptStart silentEnv "https://example.com" emptyWorld 2))
     = Return (mkResult "https://example.com" NA NA NA NA (JStr ""))
  /\ fst (IndexJs.runLighthouseWithRetry silentEnv "https://example.com" 2 emptyWorld)
     = Return (Some (mkResult "https://example.com" NA NA NA NA (JStr "")))
  /\ launchCalls
       (trace (snd (IndexJs.runLighthouseWithRetry silentEnv "https://example.com" 2
                      emptyWorld)))
     = 1%nat
  /\ pauses 3000
       (trace (snd (IndexJs.runLighthouseWithRetry silentEnv "https://example.com" 2
                      emptyWorld)))
     = 0%nat.
Proof.
  split.
  - intros w. right. exists 9222. split; reflexivity.
  - repeat split; vm_compute; reflexivity.
Qed.

(** ** The sequential scheduler of [index.js] *)


Section Sequential.

Variable E : Env.
Variable options : Options.

Lemma testLoop_follows total rest :
  0 <= opt_retries options ->
  forall completed acc w,
  exists results w',
    IndexJs.testLoop E options total rest completed acc w
    = (Return (acc ++ List.map Some results), w')
    /\ List.map url results = rest.
Proof.
  intros HR. induction rest as [| u rest' IH]; intros completed acc w.
  - exists [], w. cbn. rewrite app_nil_r. auto.
  - destruct (index_runLighthouseWithRetry_total E u (opt_retries options) w HR)
      as (r & w1 & Hrun & Hurl).
    cbn [IndexJs.testLoop]. unfold IndexJs.retries.
    rewrite (bind_Return _ _ _ _ _ Hrun).
    assert (Hpause : exists w2,
               (if (S completed <? total)%nat then sleep 2000 else ret tt) w1
               = (Return tt, w2))
      by (destruct (S completed <? total)%nat; eexists; reflexivity).
    destruct Hpause as (w2 & Hpause).
    rewrite (bind_Return _ _ _ _ _ Hpause).
    destruct (IH (S completed) (acc ++ [Some r]) w2) as (results & w' & Hloop & Hurls).
    exists (r :: results), w'. split.
    + rewrite Hloop, <- app_assoc. reflexivity.
    + cbn. rewrite Hurl, Hurls. reflexivity.
Qed.

Lemma index_runAllTests_follows urls w :
  0 <= opt_retries options ->
  exists results w',
    IndexJs.runAllTests E options urls w = (Return (List.map Some results), w')
    /\ List.map url results = urls.
Proof.
  intros HR. unfold IndexJs.runAllTests.
  destruct (testLoop_follows (length urls) urls HR 0%nat [] w)
    as (results & w' & Hloop & Hurls).
  exists results, w'. auto.
Qed.

(** With a negative retry count every job yields [undefined]; there is
    still one entry per URL. *)
Lemma testLoop_negative total rest :
  opt_retries options < 0 ->
  forall completed acc w,
  exists w',
    IndexJs.testLoop E options total rest completed acc w
    = (Return (acc ++ List.map (fun _ => None) rest), w').
Proof.
  intros HR. induction rest as [| u rest' IH]; intros completed acc w.
  - exists w. cbn. rewrite app_nil_r. reflexivity.
  - cbn [IndexJs.testLoop]. unfold IndexJs.retries.
    rewrite (bind_Return _ _ _ _ _
               (index_runLighthouseWithRetry_negative E u (opt_retries options) w HR)).
    assert (Hpause : exists w2,
               (if (S completed <? total)%nat then sleep 2000 else ret tt) w
               = (Return tt, w2))
      by (destruct (S completed <? total)%nat; eexists; reflexivity).
    destruct Hpause as (w2 & Hpause).
    rewrite (bind_Return _ _ _ _ _ Hpause).
    destruct (IH (S completed) (acc ++ [None]) w2) as (w' & Hloop).
    exists w'. rewrite Hloop, <- app_assoc. reflexivity.
Qed.

End Sequential.

(** ** The batched scheduler *)

Section Batched.

Variable E : Env.

Lemma batch_finish_url u res w r w' :
  BatchJs.finish E u res w = (Return r, w') -> url r = u.
Proof.
  unfold BatchJs.finish, bind, safeName, newURL, nowISO, BatchJs.scoreOf.
  destruct (URL_new E u); cbn; [| discriminate].
  destruct (performance (lhr res)); cbn; [| discriminate].
  destruct (accessibility (lhr res)); cbn; [| discriminate].
  destruct (best_practices (lhr res)); cbn; [| discriminate].
  destruct (seo (lhr res)); cbn; [| discriminate].
  intros [= <- _]. reflexivity.
Qed.

Lemma batch_finish_no_exit u res w n w' :
  BatchJs.finish E u res w <> (Exit n, w').
Proof.
  unfold BatchJs.finish, bind, safeName, newURL, nowISO, BatchJs.scoreOf.
  destruct (URL_new E u); cbn; [| discriminate].
  destruct (performance (lhr res)); cbn; [| discriminate].
  destruct (accessibility (lhr res)); cbn; [| discriminate].
  destruct (best_practices (lhr res)); cbn; [| discriminate].
  destruct (seo (lhr res)); cbn; discriminate.
Qed.

(** Resuming a job never throws: the job moves on, for the same URL, with
    fewer [await]s before it. *)
Lemma batch_resume_progress j w :
  exists j' w',
    BatchJs.resume E j w = (Return j', w')
    /\ jobUrl j' = jobUrl j
    /\ (BatchJs.pending j = true -> (awaitsLeft j' < awaitsLeft j)%nat).
Proof.
  destruct j as [u | u c | u c res | r].
  - unfold BatchJs.resume, BatchJs.settleOnThrow, tryCatch, bind, launch.
    destruct (chrome_launch E (tick w)); cbn; eexists _, _;
      (split; [reflexivity | split; [reflexivity | cbn; lia]]).
  - unfold BatchJs.resume, BatchJs.settleOnThrow, tryCatch, bind, runEngine.
    destruct (lighthouse E (tick w) u); cbn; eexists _, _;
      (split; [reflexivity | split; [reflexivity | cbn; lia]]).
  - unfold BatchJs.resume, BatchJs.settleOnThrow, tryCatch, bind, kill.
    destruct (chrome_kill E (tick w)); cbn.
    + eexists _, _. split; [reflexivity | split; [reflexivity | cbn; lia]].
    + destruct (BatchJs.finish E u res _) as [[r | e | n] w3] eqn:Hfin; cbn.
      * eexists _, _. split; [reflexivity |].
        split; [cbn; eapply batch_finish_url; eassumption | cbn; lia].
      * eexists _, _. split; [reflexivity | split; [reflexivity | cbn; lia]].
      * exfalso. eapply batch_finish_no_exit. eassumption.
  - exists (BatchJs.Settled r), w. cbn. split; [reflexivity |].
    split; [reflexivity | discriminate].
Qed.

Lemma pendingFrom_In k (jobs : list BatchJs.Job) i :
  In i (BatchJs.pendingFrom k jobs) ->
  (k <= i)%nat /\ exists j, jobs !! (i - k)%nat = Some j /\ BatchJs.pending j = true.
Proof.
  revert k. induction jobs as [| j0 jobs IH]; intros k Hin; [destruct Hin |].
  cbn [BatchJs.pendingFrom] in Hin.
  destruct (BatchJs.pending j0) eqn:Hp.
  - destruct Hin as [<- | Hin].
    + split; [lia |]. exists j0. rewrite Nat.sub_diag. auto.
    + destruct (IH _ Hin) as (Hle & j & Hj & Hpj).
      split; [lia |]. exists j.
      replace (i - k)%nat with (S (i - S k)) by lia. auto.
  - destruct (IH _ Hin) as (Hle & j & Hj & Hpj).
    split; [lia |]. exists j.
    replace (i - k)%nat with (S (i - S k)) by lia. auto.
Qed.

Lemma pendingFrom_nil k jobs :
  BatchJs.pendingFrom k jobs = [] ->
  Forall (fun j => BatchJs.pending j = false) jobs.
Proof.
  revert k. induction jobs as [| j0 jobs IH]; intros k Hnil; [constructor |].
  cbn [BatchJs.pendingFrom] in Hnil.
  destruct (BatchJs.pending j0) eqn:Hp; [discriminate |].
  constructor; [exact Hp | eauto].
Qed.

Lemma awaitsTotal_insert (jobs : list BatchJs.Job) (i : nat) j j' :
  jobs !! i = Some j ->
  (awaitsLeft j' < awaitsLeft j)%nat ->
  (awaitsTotal (<[i := j']> jobs) < awaitsTotal jobs)%nat.
Proof.
  unfold awaitsTotal. revert i.
  induction jobs as [| j0 jobs IH]; intros i Hi Hlt; [discriminate |].
  destruct i as [| i]; simpl in Hi.
  - injection Hi as ->.
    change (awaitsLeft j' + sum_list (awaitsLeft <$> jobs)
            < awaitsLeft j + sum_list (awaitsLeft <$> jobs))%nat.
    lia.
  - specialize (IH i Hi Hlt).
    change (awaitsLeft j0 + sum_list (awaitsLeft <$> <[i := j']> jobs)
            < awaitsLeft j0 + sum_list (awaitsLeft <$> jobs))%nat.
    lia.
Qed.

Lemma jobUrl_insert (jobs : list BatchJs.Job) (i : nat) j j' :
  jobs !! i = Some j ->
  jobUrl j' = jobUrl j ->
  jobUrl <$> <[i := j']> jobs = jobUrl <$> jobs.
Proof.
  intros Hi Heq. rewrite list_fmap_insert, Heq.
  apply list_insert_id. rewrite list_lookup_fmap, Hi. reflexivity.
Qed.

Lemma awaitsTotal_zero jobs :
  awaitsTotal jobs = 0%nat -> BatchJs.pendingFrom 0 jobs = [].
Proof.
  unfold awaitsTotal. generalize 0%nat at 2.
  induction jobs as [| j0 jobs IH]; intros k Hz; [reflexivity |].
  cbn in Hz. destruct j0; cbn in *; try lia. apply IH. exact Hz.
Qed.

(** The event loop hands every job back at its own position, for its own
    URL, and with enough steps allowed every job is settled. *)
Lemma eventLoop_settles fuel :
  forall jobs w,
  exists jobs' w',
    BatchJs.eventLoop E fuel jobs w = (Return jobs', w')
    /\ jobUrl <$> jobs' = jobUrl <$> jobs
    /\ ((awaitsTotal jobs <= fuel)%nat ->
        Forall (fun j => BatchJs.pending j = false) jobs').
Proof.
  induction fuel as [| fuel IH]; intros jobs w.
  - exists jobs, w. split; [reflexivity | split; [reflexivity |]].
    intros Hz. eapply pendingFrom_nil, awaitsTotal_zero. lia.
  - cbn [BatchJs.eventLoop].
    destruct (BatchJs.pendingFrom 0 jobs) as [| i0 more] eqn:Hpend.
    + exists jobs, w. split; [reflexivity | split; [reflexivity |]].
      intros _. eapply pendingFrom_nil. eassumption.
    + set (i := nth (schedule E (tick w) `mod` length (i0 :: more))%nat (i0 :: more) i0).
      assert (Hin : In i (BatchJs.pendingFrom 0 jobs)).
      { rewrite Hpend. subst i. apply nth_In.
        apply Nat.mod_upper_bound. cbn. lia. }
      destruct (pendingFrom_In _ _ _ Hin) as (_ & j & Hj & Hpj).
      rewrite Nat.sub_0_r in Hj. rewrite Hj.
      destruct (batch_resume_progress j w) as (j' & w1 & Hres & Hurl & Hless).
      rewrite (bind_Return _ _ _ _ _ Hres).
      destruct (IH (<[i := j']> jobs) w1) as (jobs' & w' & Hloop & Hurls & Hdone).
      exists jobs', w'. split; [exact Hloop |]. split.
      * rewrite Hurls. eapply jobUrl_insert; eassumption.
      * intros Hfuel. apply Hdone.
        pose proof (awaitsTotal_insert jobs i j j' Hj (Hless Hpj)). lia.
Qed.

Lemma settledValues_of_settled jobs :
  Forall (fun j => BatchJs.pending j = false) jobs ->
  exists results,
    mapM BatchJs.settledValue jobs = Some results
    /\ List.map url results = jobUrl <$> jobs.
Proof.
  induction 1 as [| j jobs Hj _ IH].
  - exists []. split; reflexivity.
  - destruct IH as (results & Hm & Hu).
    destruct j as [| | | r]; try discriminate.
    exists (r :: results). cbn. rewrite Hm. cbn. rewrite Hu. split; reflexivity.
Qed.

(** [Promise.all] over a batch resolves to one record per member of the
    batch, in the order of the batch, whatever order the jobs complete in. *)
Lemma promiseAll_follows batch w :
  exists results w',
    BatchJs.promiseAll E (List.map BatchJs.Launching batch) w
    = (Return (Some results), w')
    /\ List.map url results = batch.
Proof.
  unfold BatchJs.promiseAll.
  destruct (eventLoop_settles (3 * length (List.map BatchJs.Launching batch))
              (List.map BatchJs.Launching batch) w)
    as (jobs' & w' & Hloop & Hurls & Hdone).
  rewrite (bind_Return _ _ _ _ _ Hloop).
  assert (Hfuel : (awaitsTotal (List.map BatchJs.Launching batch)
                   <= 3 * length (List.map BatchJs.Launching batch))%nat).
  { unfold awaitsTotal. clear. induction batch as [| u batch IH]; cbn in *; lia. }
  destruct (settledValues_of_settled jobs' (Hdone Hfuel)) as (results & Hm & Hu).
  exists results, w'. unfold ret. rewrite Hm. split; [reflexivity |].
  rewrite Hu, Hurls. clear. induction batch as [| u batch IH]; cbn; [reflexivity |].
  f_equal. exact IH.
Qed.

End Batched.

Section Batches.

Variable E : Env.

Lemma slice_window (urls : list string) (i b : Z) :
  0 <= i < Z.of_nat (length urls) ->
  1 <= b ->
  slice urls i (i + b) = take (Z.to_nat b) (drop (Z.to_nat i) urls).
Proof.
  intros Hi Hb. unfold slice, sliceBound.
  destruct (Z.ltb_spec i 0); [lia |].
  destruct (Z.ltb_spec (i + b) 0); [lia |].
  rewrite (Z.min_l i) by lia.
  destruct (Z.le_ge_cases (i + b) (Z.of_nat (length urls))) as [Hin | Hout].
  - rewrite Z.min_l by lia. f_equal. lia.
  - rewrite Z.min_r by lia.
    rewrite !take_ge; [reflexivity | |]; rewrite length_drop; lia.
Qed.

(** The first loop cuts [urls] into consecutive windows. *)
Lemma makeBatches_concat (urls : list string) (b : Z) :
  1 <= b ->
  forall fuel i,
    0 <= i ->
    (length urls - Z.to_nat i <= fuel)%nat ->
    exists batches,
      BatchJs.makeBatches fuel urls b i = Some batches
      /\ concat batches = drop (Z.to_nat i) urls.
Proof.
  intros Hb. induction fuel as [| fuel IH]; intros i Hi Hfuel.
  - cbn [BatchJs.makeBatches].
    destruct (Z.ltb_spec i (Z.of_nat (length urls))); [lia |].
    exists []. split; [reflexivity |]. rewrite drop_ge by lia. reflexivity.
  - cbn [BatchJs.makeBatches].
    destruct (Z.ltb_spec i (Z.of_nat (length urls))).
    + destruct (IH (i + b) ltac:(lia) ltac:(lia)) as (rest & Hrest & Hcat).
      rewrite Hrest. exists (slice urls i (i + b) :: rest).
      split; [reflexivity |].
      cbn [concat]. rewrite Hcat, slice_window by lia.
      replace (Z.to_nat (i + b)) with (Z.to_nat i + Z.to_nat b)%nat by lia.
      rewrite <- drop_drop. apply take_drop.
    + exists []. split; [reflexivity |]. rewrite drop_ge by lia. reflexivity.
Qed.

(** The second loop appends the records of each batch in turn. *)
Lemma batchLoop_follows batches :
  forall acc w,
  exists results w',
    BatchJs.batchLoop E batches acc w = (Return (Some (acc ++ results)), w')
    /\ List.map url results = concat batches.
Proof.
  induction batches as [| batch rest IH]; intros acc w.
  - exists [], w. cbn. rewrite app_nil_r. auto.
  - destruct (promiseAll_follows E batch w) as (rs & w1 & Hall & Hurls).
    cbn [BatchJs.batchLoop].
    rewrite (bind_Return _ _ _ _ _ Hall).
    destruct (IH (acc ++ rs) (emit (EvSleep 500) w1)) as (results & w' & Hloop & Hrest).
    exists (rs ++ results), w'. split.
    + unfold bind at 1. cbn. rewrite Hloop, <- app_assoc. reflexivity.
    + rewrite List.map_app, Hurls, Hrest. reflexivity.
Qed.


End Batches.

(** ** C3: one result per URL, in input order *)



(** ** C6: the lines kept from the URL file *)

(** C6 (as amended): [index.js] keeps a trimmed line of the file exactly
    when it starts with the characters [http] and [new URL] accepts it; the
    batched script keeps a trimmed line exactly when it starts with the
    characters [http], whether or not it parses as a URL. *)
Theorem C6_lines_kept (E : Env) (content l : string) :
  (In l (IndexJs.parseUrlFile E content)
   <-> In l (List.map trim (splitLines content))
       /\ startsWith "http" l = true
       /\ URL_new E l <> None)
  /\ (In l (BatchJs.parseUrlFile content)
      <-> In l (List.map trim (splitLines content))
          /\ startsWith "http" l = true).
Proof.
  unfold IndexJs.parseUrlFile, BatchJs.parseUrlFile, IndexJs.validateUrl.
  rewrite !List.filter_In. split; [| tauto].
  rewrite andb_true_iff.
  destruct (URL_new E l); intuition congruence.
Qed.

(** C6 (the claim as stated fails): the line [httpjunk] carries no
    [http:] or [https:] scheme and is rejected by [new URL]; the filter of
    [index.js] drops it, the filter of the batched script keeps it. *)
Lemma C6_counterexample :
  startsWith "http:" "httpjunk" = false
  /\ startsWith "https:" "httpjunk" = false
  /\ URL_new passingEnv "httpjunk" = None
  /\ IndexJs.parseUrlFile passingEnv "httpjunk" = []
  /\ BatchJs.parseUrlFile "httpjunk" = ["httpjunk"].
Proof. repeat split; vm_compute; reflexivity. Qed.

(** ** C7: report names *)

Lemma string_length_app (a b : string) :
  String.length (a +:+ b) = (String.length a + String.length b)%nat.
Proof.
  induction a as [| c a IH]; [reflexivity |].
  change (String c a +:+ b) with (String c (a +:+ b)).
  cbn [String.length]. rewrite IH. reflexivity.
Qed.

Lemma string_app_inv_tail (a b s : string) : a +:+ s = b +:+ s -> a = b.
Proof.
  revert b. induction a as [| c a IH]; intros [| d b] H.
  - reflexivity.
  - apply (f_equal String.length) in H.
    rewrite !string_length_app in H. cbn in H. lia.
  - apply (f_equal String.length) in H.
    rewrite !string_length_app in H. cbn in H. lia.
  - change (String c (a +:+ s) = String d (b +:+ s)) in H.
    injection H as -> H. f_equal. apply IH, H.
Qed.

(** On hosts without [_], reading every [.] as [_] loses nothing. *)
Lemma replaceDots_inj (a b : string) :
  contains "_"%char a = false ->
  contains "_"%char b = false ->
  replaceAll isDot "_"%char a = replaceAll isDot "_"%char b ->
  a = b.
Proof.
  revert b. induction a as [| x a IH]; intros [| y b] Ha Hb H;
    cbn in *; try discriminate; [reflexivity |].
  apply orb_false_iff in Ha as [Hx Ha]. apply orb_false_iff in Hb as [Hy Hb].
  apply Ascii.eqb_neq in Hx. apply Ascii.eqb_neq in Hy.
  injection H as Hhead Htail. f_equal; [| eauto].
  unfold isDot in Hhead.
  destruct (Ascii.eqb_spec x "."%char), (Ascii.eqb_spec y "."%char); congruence.
Qed.

Lemma safeNameOf_eq_iff (h1 h2 iso : string) :
  safeNameOf h1 iso = safeNameOf h2 iso
  <-> replaceAll isDot "_"%char h1 = replaceAll isDot "_"%char h2.
Proof.
  unfold safeNameOf. split; [apply string_app_inv_tail | intros ->; reflexivity].
Qed.

Lemma safeName_eq (E : Env) (u : string) (w : World) :
  safeName E u w =
  (match URL_new E u with
   | Some parsed =>
       Return (safeNameOf (hostname parsed) (Date_toISOString E (tick w)))
   | None => Throw (mkError "Invalid URL")
   end, w).
Proof. unfold safeName, bind, newURL, nowISO. destruct (URL_new E u); reflexivity. Qed.

(** C7 (as amended): [safeName] is a function of the URL and of the
    clock reading, and leaves the world as it is.  For two URLs read at the
    same instant the names are equal exactly when the hosts are equal once
    every [.] is read as [_]; hence two hosts that differ and contain no
    [_] get different names. *)
Theorem C7_safeName_names (E : Env) (u1 u2 : string) (p1 p2 : URL) (w1 w2 : World) :
  Date_toISOString E (tick w1) = Date_toISOString E (tick w2) ->
  URL_new E u1 = Some p1 ->
  URL_new E u2 = Some p2 ->
  (u1 = u2 -> fst (safeName E u1 w1) = fst (safeName E u2 w2))
  /\ snd (safeName E u1 w1) = w1
  /\ (fst (safeName E u1 w1) = fst (safeName E u2 w2)
      <-> replaceAll isDot "_"%char (hostname p1) = replaceAll isDot "_"%char (hostname p2))
  /\ (hostname p1 <> hostname p2 ->
      contains "_"%char (hostname p1) = false ->
      contains "_"%char (hostname p2) = false ->
      fst (safeName E u1 w1) <> fst (safeName E u2 w2)).
Proof.
  intros Hclock H1 H2. rewrite !safeName_eq, H1, H2, Hclock. cbn [fst snd].
  assert (Hiff : Return (safeNameOf (hostname p1) (Date_toISOString E (tick w2)))
                 = Return (A := string) (safeNameOf (hostname p2) (Date_toISOString E (tick w2)))
                 <-> replaceAll isDot "_"%char (hostname p1)
                     = replaceAll isDot "_"%char (hostname p2)).
  { rewrite <- safeNameOf_eq_iff. split; [intros [= H]; exact H | intros ->; reflexivity]. }
  split; [| split; [| split]].
  - intros ->. rewrite H1 in H2. injection H2 as ->. reflexivity.
  - reflexivity.
  - exact Hiff.
  - intros Hne Hc1 Hc2 Heq. apply Hiff in Heq.
    apply Hne. apply replaceDots_inj; assumption.
Qed.

Lemma C7_safeName_names_witness :
  fst (safeName passingEnv "https://example.com" emptyWorld)
  <> fst (safeName passingEnv "https://good.test" emptyWorld).
Proof.
  refine (proj2 (proj2 (proj2
    (C7_safeName_names passingEnv "https://example.com" "https://good.test"
       (mkURL "example.com") (mkURL "good.test") emptyWorld emptyWorld
       eq_refl eq_refl eq_refl))) _ _ _).
  - vm_compute. discriminate.
  - vm_compute. reflexivity.
  - vm_compute. reflexivity.
Defined.

(** C7 (the claim as stated fails): the hosts [a.b] and [a_b] differ, and
    at the same instant [safeName] gives both the name
    [a_b__2025-01-01T10-21-55-123Z]. *)
Lemma C7_counterexample :
  URL_new passingEnv "http://a.b/" = Some (mkURL "a.b")
  /\ URL_new passingEnv "http://a_b/" = Some (mkURL "a_b")
  /\ hostname (mkURL "a.b") <> hostname (mkURL "a_b")
  /\ fst (safeName passingEnv "http://a.b/" emptyWorld)
     = Return "a_b__2025-01-01T10-21-55-123Z"
  /\ fst (safeName passingEnv "http://a_b/" emptyWorld)
     = Return "a_b__2025-01-01T10-21-55-123Z".
Proof.
  repeat split; try (vm_compute; reflexivity).
  vm_compute. discriminate.
Qed.

(** ** C8 and C10: the summary file *)


Lemma string_app_assoc (a b c : string) : (a +:+ b) +:+ c = a +:+ (b +:+ c).
Proof.
  induction a as [| x a IH]; [reflexivity |].
  change (String x ((a +:+ b) +:+ c) = String x (a +:+ (b +:+ c))).
  rewrite IH. reflexivity.
Qed.

Lemma string_app_empty_r (a : string) : a +:+ "" = a.
Proof.
  induction a as [| x a IH]; [reflexivity |].
  change (String x (a +:+ "") = String x a). rewrite IH. reflexivity.
Qed.



Lemma mapM_csvRow_defined (results : list AuditResult) :
  mapM (fun r => IndexJs.csvRow <$> r) (List.map Some results)
  = Some (List.map IndexJs.csvRow results).
Proof.
  induction results as [| r results IH]; [reflexivity |].
  cbn. cbn in IH. rewrite IH. reflexivity.
Qed.





(** C10: a score equal to the integer [0] is written by both summary
    writers as an empty field, so the row of a record that scores [0] is the
    row of the same record without that score. *)
Theorem C10_zero_score_erased (u : string) (p a b s e : JsVal) :
  cell (JNum 0) = "" /\ cell JUndefined = ""
  /\ IndexJs.csvRow (mkResult u (JNum 0) a b s e) = IndexJs.csvRow (mkResult u JUndefined a b s e)
  /\ IndexJs.csvRow (mkResult u p (JNum 0) b s e) = IndexJs.csvRow (mkResult u p JUndefined b s e)
  /\ IndexJs.csvRow (mkResult u p a (JNum 0) s e) = IndexJs.csvRow (mkResult u p a JUndefined s e)
  /\ IndexJs.csvRow (mkResult u p a b (JNum 0) e) = IndexJs.csvRow (mkResult u p a b JUndefined e)
  /\ BatchJs.csvRow (mkResult u (JNum 0) a b s e) = BatchJs.csvRow (mkResult u JUndefined a b s e)
  /\ BatchJs.csvRow (mkResult u p (JNum 0) b s e) = BatchJs.csvRow (mkResult u p JUndefined b s e)
  /\ BatchJs.csvRow (mkResult u p a (JNum 0) s e) = BatchJs.csvRow (mkResult u p a JUndefined s e)
  /\ BatchJs.csvRow (mkResult u p a b (JNum 0) e) = BatchJs.csvRow (mkResult u p a b JUndefined e)
  /\ IndexJs.csvRow (mkResult u (JNum 0) (JNum 0) (JNum 0) (JNum 0) e)
     = dq +:+ u +:+ dq +:+ "," +:+ "" +:+ "," +:+ "" +:+ "," +:+ "" +:+ "," +:+ ""
       +:+ "," +:+ dq +:+ cell e +:+ dq
  /\ BatchJs.csvRow (mkResult u (JNum 0) (JNum 0) (JNum 0) (JNum 0) e)
     = dq +:+ u +:+ dq +:+ "," +:+ "" +:+ "," +:+ "" +:+ "," +:+ "" +:+ "," +:+ "".
Proof. repeat split; reflexivity. Qed.

(** ** C9: an empty work set *)

Lemma batch_loadUrls_world (w : World) : snd (BatchJs.loadUrls w) = w.
Proof.
  unfold BatchJs.loadUrls, bind, existsSync, readFileSync.
  destruct (bool_decide _ || bool_decide _); cbn; [| reflexivity].
  destruct (files w !! "urls.txt"); reflexivity.
Qed.

Lemma index_loadUrlsWith_world (E : Env) (options : Options) defaults (w : World) :
  snd (IndexJs.loadUrlsWith E options defaults w) = w.
Proof.
  unfold IndexJs.loadUrlsWith, bind, existsSync, readFileSync.
  destruct (bool_decide _ || bool_decide _); cbn; [reflexivity |].
  destruct (files w !! opt_urls options); reflexivity.
Qed.

(** The guard of [main]: with no URL the process exits with code 1 and
    nothing has been touched. *)
Lemma index_mainFrom_empty (E : Env) (options : Options) (w : World) :
  IndexJs.mainFrom E options [] w = (Exit 1, w).
Proof. reflexivity. Qed.

(** The batched script on an empty list of URLs. *)
Lemma batch_script_empty (E : Env) (w : World) :
  fst (BatchJs.loadUrls w) = Return [] ->
  exists w',
    BatchJs.script E w = (Return (Some tt), w')
    /\ files w' = <["lighthouse-results.csv" := BatchJs.csvHeader]> (files w)
    /\ trace w' = trace w.
Proof.
  intros Hload. unfold BatchJs.script.
  assert (Hl : BatchJs.loadUrls w = (Return [], w)).
  { pose proof (batch_loadUrls_world w) as Hw.
    destruct (BatchJs.loadUrls w) as [o w1]. cbn in Hload, Hw.
    subst o w1. reflexivity. }
  rewrite (bind_Return _ _ _ _ _ Hl).
  unfold bind, existsSync.
  destruct (bool_decide _ || bool_decide _); cbn;
    eexists; (split; [reflexivity | split; reflexivity]).
Qed.

(** C9 (as amended): in [index.js], when the list of URLs to test is
    empty, [main] exits with code 1 before the reports directory is created
    and before any file is written.  The batched script, whose default list
    is empty, has no such test: when its URL source yields nothing it runs
    no audit, writes a summary that holds the header row only, and ends
    normally. *)
Theorem C9_empty_work_set (E : Env) (options : Options) (w : World) :
  fst (BatchJs.loadUrls w) = Return [] ->
  IndexJs.mainFrom E options [] w = (Exit 1, w)
  /\ (forall defaults,
        fst (IndexJs.loadUrlsWith E options defaults w) = Return [] ->
        IndexJs.entryOf (IndexJs.mainWith E options defaults) w = (Exit 1, w))
  /\ exists w',
       BatchJs.script E w = (Return (Some tt), w')
       /\ files w' = <["lighthouse-results.csv" :=
                         "URL,Performance,Accessibility,BestPractices,SEO"]> (files w)
       /\ trace w' = trace w.
Proof.
  intros Hload. split; [reflexivity | split].
  - intros defaults Hempty.
    pose proof (index_loadUrlsWith_world E options defaults w) as Hw.
    unfold IndexJs.entryOf, tryCatch, IndexJs.mainWith, bind.
    destruct (IndexJs.loadUrlsWith E options defaults w) as [o w1].
    cbn in Hempty, Hw. subst o w1. reflexivity.
  - apply batch_script_empty, Hload.
Qed.

Lemma C9_empty_work_set_witness :
  IndexJs.mainFrom failingEnv sampleOptions [] emptyWorld = (Exit 1, emptyWorld)
  /\ exists w',
       BatchJs.script failingEnv emptyWorld = (Return (Some tt), w')
       /\ files w' = <["lighthouse-results.csv" :=
                         "URL,Performance,Accessibility,BestPractices,SEO"]> (files emptyWorld)
       /\ trace w' = trace emptyWorld.
Proof.
  pose proof (C9_empty_work_set failingEnv sampleOptions emptyWorld eq_refl)
    as (Hindex & _ & Hbatch).
  split; assumption.
Defined.

(** C9 (the claim as stated fails): started in a directory without
    [urls.txt], the batched script has no URL to test, its default list being
    empty; it ends normally and leaves a summary that holds the header row
    only. *)
Lemma C9_counterexample :
  BatchJs.loadUrls emptyWorld = (Return [], emptyWorld)
  /\ fst (BatchJs.script failingEnv emptyWorld) = Return (Some tt)
  /\ files (snd (BatchJs.script failingEnv emptyWorld)) !! "lighthouse-results.csv"
     = Some "URL,Performance,Accessibility,BestPractices,SEO".
Proof. repeat split; vm_compute; reflexivity. Qed.

(** ** Browsers started and killed over a whole sequential run *)

Section Pairing.

Variable E : Env.
Variable options : Options.

Lemma pairedSince_refl w : pairedSince w w.
Proof. exists []. rewrite app_nil_r. auto. Qed.

Lemma pairedSince_trans w1 w2 w3 :
  pairedSince w1 w2 -> pairedSince w2 w3 -> pairedSince w1 w3.
Proof.
  intros (s1 & H1 & P1) (s2 & H2 & P2). exists (s1 ++ s2). split.
  - rewrite H2, H1, app_assoc. reflexivity.
  - rewrite killedIn_app, launchedIn_app, P1, P2. reflexivity.
Qed.

Lemma pairedSince_sleep ms w : pairedSince w (emit (EvSleep ms) w).
Proof. exists [EvSleep ms]. auto. Qed.

Lemma index_runLighthouse_paired u w :
  pairedSince w (snd (IndexJs.runLighthouse E u w)).
Proof.
  destruct (index_runLighthouse_trace E u w) as (seg & Htr & _ & _ & Hpair).
  exists seg. auto.
Qed.

Lemma retryLoop_paired u R n :
  forall attempt w, pairedSince w (snd (IndexJs.retryLoop E u R n attempt w)).
Proof.
  induction n as [| n IH]; intros attempt w; [apply pairedSince_refl |].
  destruct (Z.le_gt_cases attempt (R + 1)) as [Hle | Hgt]; cycle 1.
  { cbn [IndexJs.retryLoop]. destruct (Z.leb_spec attempt (R + 1)); [lia |].
    apply pairedSince_refl. }
  rewrite retryLoop_step by exact Hle. cbn zeta.
  set (w0 := if 1 <? attempt then emit (EvSleep 3000) w else w).
  assert (H0 : pairedSince w w0)
    by (subst w0; destruct (1 <? attempt);
        [apply pairedSince_sleep | apply pairedSince_refl]).
  pose proof (index_runLighthouse_paired u w0) as H1.
  destruct (IndexJs.runLighthouse E u w0) as [[r | e | c] w1]; cbn [snd] in H1.
  - destruct (negb (truthy (error r))); [eauto using pairedSince_trans |].
    destruct (truthy (error r) && (attempt <=? R));
      eauto using pairedSince_trans.
  - destruct (R <? attempt); eauto using pairedSince_trans.
  - eauto using pairedSince_trans.
Qed.

Lemma testLoop_paired total rest :
  forall completed acc w,
    pairedSince w (snd (IndexJs.testLoop E options total rest completed acc w)).
Proof.
  induction rest as [| u rest IH]; intros completed acc w; [apply pairedSince_refl |].
  cbn [IndexJs.testLoop]. unfold bind at 1.
  pose proof (retryLoop_paired u (IndexJs.retries options)
                (Z.to_nat (IndexJs.retries options + 1)) 1 w) as H1.
  fold (IndexJs.runLighthouseWithRetry E u (IndexJs.retries options)) in H1.
  destruct (IndexJs.runLighthouseWithRetry E u (IndexJs.retries options) w)
    as [[r | e | c] w1]; cbn [snd] in *; try exact H1.
  unfold bind at 1.
  destruct (S completed <? total)%nat; cbn.
  - eapply pairedSince_trans; [exact H1 |].
    eapply pairedSince_trans; [apply pairedSince_sleep | apply IH].
  - eapply pairedSince_trans; [exact H1 | apply IH].
Qed.

(** In [index.js] the browsers killed during a run of [runAllTests] are
    the browsers it started. *)
Lemma index_runAllTests_paired urls w :
  pairedSince w (snd (IndexJs.runAllTests E options urls w)).
Proof. apply testLoop_paired. Qed.

End Pairing.

(** ** Scenarios *)

(** One URL, an engine that scores 90, 95, 100 and 88: one summary row and
    two report files. *)
Example scenario_one_success :
  let after := files (snd (IndexJs.mainFrom passingEnv sampleOptions
                             ["https://example.com"] emptyWorld)) in
  size after = 3%nat
  /\ after !! "lighthouse-results.csv"
     = Some ("URL,Performance,Accessibility,BestPractices,SEO,Error" +:+ nl +:+
             dq +:+ "https://example.com" +:+ dq +:+ ",90,95,100,88," +:+ dq +:+ dq)
  /\ after !! "reports/example_com__2025-01-01T10-21-55-123Z.json" = Some "{}"
  /\ after !! "reports/example_com__2025-01-01T10-21-55-123Z.html"
     = Some "<html></html>".
Proof. repeat split; vm_compute; reflexivity. Qed.

(** A file with a malformed line and a valid one: one URL is kept. *)
Example scenario_malformed_line :
  IndexJs.parseUrlFile passingEnv ("not-a-url" +:+ nl +:+ "https://good.test" +:+ nl)
  = ["https://good.test"].
Proof. vm_compute. reflexivity. Qed.

(** One URL, an engine that fails every time, two retries: three
    invocations of the engine, and a row of sentinels with the error. *)
Example scenario_always_failing :
  engineCalls (trace (snd (IndexJs.mainFrom failingEnv sampleOptions
                             ["https://example.com"] emptyWorld))) = 3%nat
  /\ files (snd (IndexJs.mainFrom failingEnv sampleOptions
                   ["https://example.com"] emptyWorld)) !! "lighthouse-results.csv"
     = Some ("URL,Performance,Accessibility,BestPractices,SEO,Error" +:+ nl +:+
             dq +:+ "https://example.com" +:+ dq +:+ ",N/A,N/A,N/A,N/A," +:+
             dq +:+ "PROTOCOL_TIMEOUT" +:+ dq).
Proof. split; vm_compute; reflexivity. Qed.

(** * Further properties of the two runners *)

(** ** Events of one audit call *)

Lemma pauses_app ms (a b : list Event) :
  pauses ms (a ++ b) = (pauses ms a + pauses ms b)%nat.
Proof. unfold pauses. rewrite List.filter_app, length_app. reflexivity. Qed.

Lemma engineCalls_app (a b : list Event) :
  engineCalls (a ++ b) = (engineCalls a + engineCalls b)%nat.
Proof. unfold engineCalls. rewrite List.filter_app, length_app. reflexivity. Qed.

(** The events of one call of [runLighthouse] in [index.js]: a rejected
    launch, or a launch, an audit and the kill of that browser. *)
Lemma index_runLighthouse_events (E : Env) (u : string) (w : World) :
  exists seg,
    trace (snd (IndexJs.runLighthouse E u w)) = trace w ++ seg
    /\ (seg = [EvLaunchFailed]
        \/ exists c, seg = [EvLaunch c; EvLighthouse u (port c); EvKill c]).
Proof.
  rewrite index_runLighthouse_eq.
  destruct (chrome_launch E (tick w)) as [p | e].
  - cbn zeta. rewrite index_auditWith_eq. cbn zeta.
    exists [EvLaunch (mkChrome p (tick w)); EvLighthouse u p; EvKill (mkChrome p (tick w))].
    split; [| right; exists (mkChrome p (tick w)); reflexivity].
    destruct (lighthouse E _ u); [destruct (URL_new E u) |];
      cbn; destruct (chrome_kill E _); cbn;
      rewrite <- !app_assoc; reflexivity.
  - exists [EvLaunchFailed]. split; [reflexivity | left; reflexivity].
Qed.

Lemma index_runLighthouse_pauses (E : Env) (u : string) (w : World) ms :
  pauses ms (trace (snd (IndexJs.runLighthouse E u w))) = pauses ms (trace w).
Proof.
  destruct (index_runLighthouse_events E u w) as (seg & -> & [-> | (c & ->)]);
    rewrite pauses_app; cbn; lia.
Qed.

Lemma pauses_sleep ms m w :
  pauses ms (trace (emit (EvSleep m) w))
  = (pauses ms (trace w) + if (m =? ms)%Z then 1 else 0)%nat.
Proof.
  unfold emit. cbn [trace]. rewrite pauses_app. unfold pauses at 2. cbn.
  destruct (m =? ms); reflexivity.
Qed.

(** ** The retry loop, attempt by attempt *)

Section RetryAttempts.

Variable E : Env.
Variable u : string.




End RetryAttempts.



(** ** Counting attempts and pauses over a sequential run *)

Section SequentialCounts.

Variable E : Env.
Variable options : Options.

(** What one run of the retry loop adds to the trace: [k] calls to
    [launch], a pause of three seconds before each attempt but attempt 1,
    and no other pause. *)
Lemma retryLoop_counts u R n :
  forall attempt w,
  1 <= attempt ->
  exists r w' k,
    IndexJs.retryLoop E u R n attempt w = (Return r, w')
    /\ (k <= n)%nat
    /\ launchCalls (trace w') = (launchCalls (trace w) + k)%nat
    /\ pauses 3000 (trace w')
       = (pauses 3000 (trace w) + if (1 <? attempt)%Z then k else k - 1)%nat
    /\ (forall ms, ms <> 3000 -> pauses ms (trace w') = pauses ms (trace w))
    /\ (attempt <= R + 1 -> (1 <= n)%nat -> (1 <= k)%nat).
Proof.
  induction n as [| n IH]; intros attempt w Hpos.
  - exists None, w, 0%nat. cbn. repeat split; try lia.
    destruct (1 <? attempt); lia.
  - destruct (Z.le_gt_cases attempt (R + 1)) as [Hle | Hgt]; cycle 1.
    { exists None, w, 0%nat. cbn [IndexJs.retryLoop].
      destruct (Z.leb_spec attempt (R + 1)); [lia |].
      repeat split; try lia. destruct (1 <? attempt); lia. }
    rewrite retryLoop_step by exact Hle. cbn zeta.
    set (w0 := if 1 <? attempt then emit (EvSleep 3000) w else w).
    assert (Hl0 : launchCalls (trace w0) = launchCalls (trace w))
      by (subst w0; destruct (1 <? attempt); [apply launchCalls_sleep | reflexivity]).
    assert (Hp0 : pauses 3000 (trace w0)
                  = (pauses 3000 (trace w) + if (1 <? attempt)%Z then 1 else 0)%nat)
      by (subst w0; destruct (1 <? attempt); [rewrite pauses_sleep; reflexivity | lia]).
    assert (Hq0 : forall ms, ms <> 3000 -> pauses ms (trace w0) = pauses ms (trace w)).
    { intros ms Hms. subst w0. destruct (1 <? attempt); [| reflexivity].
      rewrite pauses_sleep. destruct (Z.eqb_spec 3000 ms); [congruence | lia]. }
    pose proof (index_runLighthouse_launchCalls E u w0) as Hl1.
    pose proof (index_runLighthouse_pauses E u w0) as Hp1.
    pose proof (index_runLighthouse_url E u w0) as Hurl.
    destruct (IH (attempt + 1) (snd (IndexJs.runLighthouse E u w0)) ltac:(lia))
      as (r' & w' & k' & Hrec & Hk' & Hl' & Hp' & Hq' & _).
    destruct (Z.ltb_spec 1 (attempt + 1)) as [_ | Hnext] in Hp'; [| lia].
    assert (Hstop : forall r : option AuditResult,
              exists r1 w'' k,
                (Return r, snd (IndexJs.runLighthouse E u w0)) = (Return r1, w'')
                /\ (k <= S n)%nat
                /\ launchCalls (trace w'') = (launchCalls (trace w) + k)%nat
                /\ pauses 3000 (trace w'')
                   = (pauses 3000 (trace w) + if (1 <? attempt)%Z then k else k - 1)%nat
                /\ (forall ms, ms <> 3000 -> pauses ms (trace w'') = pauses ms (trace w))
                /\ (attempt <= R + 1 -> (1 <= S n)%nat -> (1 <= k)%nat)).
    { intros r. exists r, (snd (IndexJs.runLighthouse E u w0)), 1%nat.
      repeat split; try lia.
      - rewrite Hp1, Hp0. destruct (1 <? attempt); lia.
      - intros ms Hms. rewrite Hp1. apply Hq0, Hms. }
    assert (Hgo :
              exists r1 w'' k,
                IndexJs.retryLoop E u R n (attempt + 1) (snd (IndexJs.runLighthouse E u w0))
                = (Return r1, w'')
                /\ (k <= S n)%nat
                /\ launchCalls (trace w'') = (launchCalls (trace w) + k)%nat
                /\ pauses 3000 (trace w'')
                   = (pauses 3000 (trace w) + if (1 <? attempt)%Z then k else k - 1)%nat
                /\ (forall ms, ms <> 3000 -> pauses ms (trace w'') = pauses ms (trace w))
                /\ (attempt <= R + 1 -> (1 <= S n)%nat -> (1 <= k)%nat)).
    { exists r', w', (S k'). repeat split; try lia.
      - exact Hrec.
      - rewrite Hp', Hp1, Hp0. destruct (1 <? attempt); lia.
      - intros ms Hms. rewrite (Hq' ms Hms), Hp1. apply Hq0, Hms. }
    destruct (IndexJs.runLighthouse E u w0) as [[r | e | c] w1];
      cbn [fst snd] in *; try contradiction.
    + destruct (negb (truthy (error r))); [apply Hstop |].
      destruct (truthy (error r) && (attempt <=? R)); [apply Hgo | apply Hstop].
    + destruct (R <? attempt); [apply Hstop | apply Hgo].
Qed.

Lemma index_runLighthouseWithRetry_counts u w :
  exists r w' k,
    IndexJs.runLighthouseWithRetry E u (opt_retries options) w = (Return r, w')
    /\ (k <= Z.to_nat (opt_retries options + 1))%nat
    /\ launchCalls (trace w') = (launchCalls (trace w) + k)%nat
    /\ pauses 3000 (trace w') = (pauses 3000 (trace w) + (k - 1))%nat
    /\ pauses 2000 (trace w') = pauses 2000 (trace w)
    /\ (0 <= opt_retries options -> (1 <= k)%nat).
Proof.
  unfold IndexJs.runLighthouseWithRetry.
  destruct (retryLoop_counts u (opt_retries options)
              (Z.to_nat (opt_retries options + 1)) 1 w ltac:(lia))
    as (r & w' & k & Hrun & Hk & Hl & Hp & Hq & Hone).
  exists r, w', k. repeat split; try assumption.
  - apply Hq. lia.
  - intros HR. apply Hone; lia.
Qed.

Lemma testLoop_counts total rest :
  forall completed acc w,
  total = (completed + length rest)%nat ->
  exists rs w' k,
    IndexJs.testLoop E options total rest completed acc w = (Return rs, w')
    /\ pauses 2000 (trace w') = (pauses 2000 (trace w) + (length rest - 1))%nat
    /\ launchCalls (trace w') = (launchCalls (trace w) + k)%nat
    /\ (k <= length rest * Z.to_nat (opt_retries options + 1))%nat
    /\ (0 <= opt_retries options ->
        (length rest <= k)%nat
        /\ (pauses 3000 (trace w') + length rest = pauses 3000 (trace w) + k)%nat).
Proof.
  induction rest as [| u rest IH]; intros completed acc w Htotal.
  - exists acc, w, 0%nat. cbn. repeat split; lia.
  - destruct (index_runLighthouseWithRetry_counts u w)
      as (r & w1 & k1 & Hrun & Hk1 & Hl1 & Hp1 & Hq1 & Hone).
    cbn [IndexJs.testLoop]. unfold IndexJs.retries.
    rewrite (bind_Return _ _ _ _ _ Hrun).
    set (w2 := if (S completed <? total)%nat then emit (EvSleep 2000) w1 else w1).
    assert (Hpause : (if (S completed <? total)%nat then sleep 2000 else ret tt) w1
                     = (Return tt, w2))
      by (subst w2; destruct (S completed <? total)%nat; reflexivity).
    rewrite (bind_Return _ _ _ _ _ Hpause).
    assert (Hl2 : launchCalls (trace w2) = launchCalls (trace w1))
      by (subst w2; destruct (S completed <? total)%nat;
          [apply launchCalls_sleep | reflexivity]).
    assert (Hp2 : pauses 3000 (trace w2) = pauses 3000 (trace w1)).
    { subst w2. destruct (S completed <? total)%nat; [| reflexivity].
      rewrite pauses_sleep. cbn. lia. }
    assert (Hq2 : pauses 2000 (trace w2)
                  = (pauses 2000 (trace w1) + if (S completed <? total)%nat then 1 else 0)%nat).
    { subst w2. destruct (S completed <? total)%nat; [| lia].
      rewrite pauses_sleep. reflexivity. }
    destruct (IH (S completed) (acc ++ [r]) w2 ltac:(cbn in Htotal; lia))
      as (rs & w' & k & Hloop & Hq & Hl & Hk & Hpos).
    exists rs, w', (k1 + k)%nat. split; [exact Hloop |].
    cbn [length] in *. repeat split.
    + rewrite Hq, Hq2, Hq1.
      destruct (Nat.ltb_spec (S completed) total); destruct rest; cbn [length] in *; lia.
    + lia.
    + nia.
    + specialize (Hone H). specialize (Hpos H). lia.
    + specialize (Hone H). specialize (Hpos H). lia.
Qed.

End SequentialCounts.

(** X2: in [index.js], [runAllTests] pauses two seconds between
    consecutive jobs only: over a list of [N] URLs it adds exactly [N - 1]
    such pauses ([0] for the empty list), whatever the jobs do and whatever
    the retry count is. *)
Theorem sequential_pacing (E : Env) (options : Options) (urls : list string) (w : World) :
  pauses 2000 (trace (snd (IndexJs.runAllTests E options urls w)))
  = (pauses 2000 (trace w) + (length urls - 1))%nat.
Proof.
  unfold IndexJs.runAllTests.
  destruct (testLoop_counts E options (length urls) urls 0%nat [] w eq_refl)
    as (rs & w' & k & Hloop & Hq & _).
  rewrite Hloop. exact Hq.
Qed.

(** X3: in [index.js], with a retry count [R >= 0], a run of
    [runAllTests] over [N] URLs launches a browser at least [N] and at most
    [N * (R + 1)] times, and pauses three seconds once for every launch
    beyond the first of a URL. *)
Theorem sequential_attempt_bounds
    (E : Env) (options : Options) (urls : list string) (w : World) :
  0 <= opt_retries options ->
  exists k,
    launchCalls (trace (snd (IndexJs.runAllTests E options urls w)))
    = (launchCalls (trace w) + k)%nat
    /\ (length urls <= k)%nat
    /\ (k <= length urls * Z.to_nat (opt_retries options + 1))%nat
    /\ (pauses 3000 (trace (snd (IndexJs.runAllTests E options urls w))) + length urls
        = pauses 3000 (trace w) + k)%nat.
Proof.
  intros HR. unfold IndexJs.runAllTests.
  destruct (testLoop_counts E options (length urls) urls 0%nat [] w eq_refl)
    as (rs & w' & k & Hloop & _ & Hl & Hk & Hpos).
  rewrite Hloop. cbn [snd]. exists k. destruct (Hpos HR). auto.
Qed.

Lemma sequential_attempt_bounds_witness :
  exists k,
    launchCalls (trace (snd (IndexJs.runAllTests flakyEnv sampleOptions
                               ["https://example.com"; "https://good.test"] emptyWorld)))
    = (launchCalls (trace emptyWorld) + k)%nat
    /\ (length ["https://example.com"; "https://good.test"] <= k)%nat
    /\ (k <= length ["https://example.com"; "https://good.test"]
             * Z.to_nat (opt_retries sampleOptions + 1))%nat
    /\ (pauses 3000 (trace (snd (IndexJs.runAllTests flakyEnv sampleOptions
                                   ["https://example.com"; "https://good.test"] emptyWorld)))
        + length ["https://example.com"; "https://good.test"]
        = pauses 3000 (trace emptyWorld) + k)%nat.
Proof.
  apply (sequential_attempt_bounds flakyEnv sampleOptions
           ["https://example.com"; "https://good.test"] emptyWorld).
  vm_compute. discriminate.
Defined.

(** ** Counting launches, audits and pauses over a batched run *)

Section BatchedCounts.

Variable E : Env.

Lemma batch_finish_trace u res w :
  trace (snd (BatchJs.finish E u res w)) = trace w.
Proof.
  unfold BatchJs.finish, bind, safeName, newURL, nowISO, BatchJs.scoreOf.
  destruct (URL_new E u); cbn; [| reflexivity].
  destruct (performance (lhr res)); cbn; [| reflexivity].
  destruct (accessibility (lhr res)); cbn; [| reflexivity].
  destruct (best_practices (lhr res)); cbn; [| reflexivity].
  destruct (seo (lhr res)); reflexivity.
Qed.

(** What resuming a job adds to the trace. *)
Lemma batch_resume_counts j w :
  let w' := snd (BatchJs.resume E j w) in
  forall j', fst (BatchJs.resume E j w) = Return j' ->
    (launchCalls (trace w') + launchDue j' = launchCalls (trace w) + launchDue j)%nat
    /\ (engineCalls (trace w') + engineDue j' <= engineCalls (trace w) + engineDue j)%nat
    /\ (forall ms, pauses ms (trace w') = pauses ms (trace w)).
Proof.
  assert (Hone : forall (e : Event) (tr : list Event) (a b c d : nat),
            isLaunchCall e = false \/ (a + 1 = b)%nat ->
            isLaunchCall e = true \/ a = b ->
            (match e with EvLighthouse _ _ => (c + 1 <= d)%nat | _ => (c <= d)%nat end) ->
            (match e with EvSleep _ => False | _ => True end) ->
            (launchCalls (tr ++ [e]) + a = launchCalls tr + b)%nat
            /\ (engineCalls (tr ++ [e]) + c <= engineCalls tr + d)%nat
            /\ (forall ms, pauses ms (tr ++ [e]) = pauses ms tr)).
  { intros e tr a b c d H1 H2 H3 H4.
    rewrite launchCalls_app, engineCalls_app.
    split; [| split].
    - destruct e; cbn in *; destruct H1, H2; try discriminate; try lia.
    - destruct e; cbn in *; lia.
    - intros ms. rewrite pauses_app. destruct e; cbn in *; lia. }
  destruct j as [u | u c | u c res | r]; cbn zeta.
  - unfold BatchJs.resume, BatchJs.settleOnThrow, tryCatch, bind, launch.
    destruct (chrome_launch E (tick w)); cbn [fst snd]; intros j' [= <-];
      unfold emit; cbn [trace]; apply Hone; cbn; auto.
  - unfold BatchJs.resume, BatchJs.settleOnThrow, tryCatch, bind, runEngine.
    destruct (lighthouse E (tick w) u); cbn [fst snd]; intros j' [= <-];
      unfold emit; cbn [trace]; apply Hone; cbn; auto.
  - unfold BatchJs.resume, BatchJs.settleOnThrow, tryCatch, bind, kill.
    destruct (chrome_kill E (tick w)); cbn [fst snd].
    + intros j' [= <-]. unfold emit; cbn [trace]; apply Hone; cbn; auto.
    + pose proof (batch_finish_trace u res (emit (EvKill c) w)) as Htr.
      destruct (BatchJs.finish E u res _) as [[r | e | n] w3]; cbn [fst snd] in *;
        intros j' Hj'; try discriminate; injection Hj' as <-;
        cbn [ret fst snd]; rewrite Htr; unfold emit; cbn [trace]; apply Hone; cbn; auto.
  - unfold BatchJs.resume, ret. cbn [fst snd]. intros j' [= <-].
    cbn [launchDue engineDue]. split; [lia | split; [lia | reflexivity]].
Qed.

Lemma sum_list_insert (f : BatchJs.Job -> nat) (jobs : list BatchJs.Job) (i : nat) j j' :
  jobs !! i = Some j ->
  (sum_list (f <$> <[i := j']> jobs) + f j = sum_list (f <$> jobs) + f j')%nat.
Proof.
  revert i. induction jobs as [| j0 jobs IH]; intros i Hi; [discriminate |].
  destruct i as [| i]; simpl in Hi.
  - injection Hi as ->.
    change (f j' + sum_list (f <$> jobs) + f j = f j + sum_list (f <$> jobs) + f j')%nat.
    lia.
  - specialize (IH i Hi).
    change (f j0 + sum_list (f <$> <[i := j']> jobs) + f j
            = f j0 + sum_list (f <$> jobs) + f j')%nat.
    lia.
Qed.

Lemma eventLoop_counts fuel :
  forall jobs w,
  exists jobs' w',
    BatchJs.eventLoop E fuel jobs w = (Return jobs', w')
    /\ (launchCalls (trace w') + sum_list (launchDue <$> jobs')
        = launchCalls (trace w) + sum_list (launchDue <$> jobs))%nat
    /\ (engineCalls (trace w') + sum_list (engineDue <$> jobs')
        <= engineCalls (trace w) + sum_list (engineDue <$> jobs))%nat
    /\ (forall ms, pauses ms (trace w') = pauses ms (trace w)).
Proof.
  induction fuel as [| fuel IH]; intros jobs w.
  - exists jobs, w. cbn. repeat split; lia.
  - cbn [BatchJs.eventLoop].
    destruct (BatchJs.pendingFrom 0 jobs) as [| i0 more] eqn:Hpend.
    + exists jobs, w. cbn. repeat split; lia.
    + set (i := nth (schedule E (tick w) `mod` length (i0 :: more))%nat (i0 :: more) i0).
      assert (Hin : In i (BatchJs.pendingFrom 0 jobs)).
      { rewrite Hpend. subst i. apply nth_In.
        apply Nat.mod_upper_bound. cbn. lia. }
      destruct (pendingFrom_In _ _ _ Hin) as (_ & j & Hj & Hpj).
      rewrite Nat.sub_0_r in Hj. rewrite Hj.
      destruct (batch_resume_progress E j w) as (j' & w1 & Hres & _ & _).
      pose proof (batch_resume_counts j w j') as Hcount.
      rewrite Hres in Hcount. cbn [fst snd] in Hcount.
      destruct (Hcount eq_refl) as (Hl & He & Hp).
      rewrite (bind_Return _ _ _ _ _ Hres).
      destruct (IH (<[i := j']> jobs) w1) as (jobs' & w' & Hloop & Hl' & He' & Hp').
      pose proof (sum_list_insert launchDue jobs i j j' Hj) as Hsl.
      pose proof (sum_list_insert engineDue jobs i j j' Hj) as Hse.
      exists jobs', w'. split; [exact Hloop |]. repeat split; try lia.
      intros ms. rewrite Hp', Hp. reflexivity.
Qed.

Lemma settled_nothing_due jobs :
  Forall (fun j => BatchJs.pending j = false) jobs ->
  sum_list (launchDue <$> jobs) = 0%nat /\ sum_list (engineDue <$> jobs) = 0%nat.
Proof.
  induction 1 as [| j jobs Hj _ [IHl IHe]]; [split; reflexivity |].
  destruct j; try discriminate. cbn. cbn in IHl, IHe. lia.
Qed.

Lemma launching_all_due (batch : list string) :
  sum_list (launchDue <$> List.map BatchJs.Launching batch) = length batch
  /\ sum_list (engineDue <$> List.map BatchJs.Launching batch) = length batch.
Proof.
  induction batch as [| u batch [IHl IHe]]; [split; reflexivity |].
  cbn. cbn in IHl, IHe. lia.
Qed.

Lemma promiseAll_counts batch w :
  exists results w',
    BatchJs.promiseAll E (List.map BatchJs.Launching batch) w = (Return (Some results), w')
    /\ launchCalls (trace w') = (launchCalls (trace w) + length batch)%nat
    /\ (engineCalls (trace w') <= engineCalls (trace w) + length batch)%nat
    /\ (forall ms, pauses ms (trace w') = pauses ms (trace w)).
Proof.
  destruct (promiseAll_follows E batch w) as (results & w' & Hall & _).
  exists results, w'. split; [exact Hall |].
  unfold BatchJs.promiseAll in Hall.
  destruct (eventLoop_settles E (3 * length (List.map BatchJs.Launching batch))
              (List.map BatchJs.Launching batch) w)
    as (jobs' & w1 & Hloop & _ & Hdone).
  destruct (eventLoop_counts (3 * length (List.map BatchJs.Launching batch))
              (List.map BatchJs.Launching batch) w)
    as (jobs2 & w2 & Hloop2 & Hl & He & Hp).
  rewrite Hloop in Hloop2. injection Hloop2 as <- <-.
  rewrite (bind_Return _ _ _ _ _ Hloop) in Hall. injection Hall as _ <-.
  assert (Hfuel : (awaitsTotal (List.map BatchJs.Launching batch)
                   <= 3 * length (List.map BatchJs.Launching batch))%nat).
  { unfold awaitsTotal. clear. induction batch as [| u batch IH]; cbn in *; lia. }
  destruct (settled_nothing_due jobs' (Hdone Hfuel)) as (Hzl & Hze).
  destruct (launching_all_due batch) as (Hal & Hae).
  rewrite Hzl, Hal in Hl. rewrite Hze, Hae in He.
  repeat split; try lia. exact Hp.
Qed.

Lemma batchLoop_counts batches :
  forall acc w,
  exists results w',
    BatchJs.batchLoop E batches acc w = (Return (Some results), w')
    /\ launchCalls (trace w') = (launchCalls (trace w) + length (concat batches))%nat
    /\ (engineCalls (trace w') <= engineCalls (trace w) + length (concat batches))%nat
    /\ pauses 500 (trace w') = (pauses 500 (trace w) + length batches)%nat
    /\ (forall ms, ms <> 500 -> pauses ms (trace w') = pauses ms (trace w)).
Proof.
  induction batches as [| batch rest IH]; intros acc w.
  - exists acc, w. cbn. repeat split; lia.
  - destruct (promiseAll_counts batch w) as (rs & w1 & Hall & Hl & He & Hp).
    cbn [BatchJs.batchLoop].
    rewrite (bind_Return _ _ _ _ _ Hall).
    destruct (IH (acc ++ rs) (emit (EvSleep 500) w1))
      as (results & w' & Hloop & Hl' & He' & Hp' & Hq').
    exists results, w'. split; [unfold bind at 1; cbn; exact Hloop |].
    cbn [concat length]. rewrite length_app.
    rewrite launchCalls_sleep in Hl'.
    assert (Hes : engineCalls (trace (emit (EvSleep 500) w1)) = engineCalls (trace w1))
      by (unfold emit; cbn [trace]; rewrite engineCalls_app; cbn; lia).
    rewrite pauses_sleep, Hp in Hp'. cbn in Hp'.
    repeat split; try lia.
    intros ms Hms. rewrite (Hq' ms Hms), pauses_sleep, Hp.
    destruct (Z.eqb_spec 500 ms); [congruence | lia].
Qed.

End BatchedCounts.

Lemma makeBatches_shape (urls : list string) (b : Z) :
  1 <= b ->
  forall fuel i,
    0 <= i ->
    (length urls - Z.to_nat i <= fuel)%nat ->
    exists batches,
      BatchJs.makeBatches fuel urls b i = Some batches
      /\ Forall (fun batch => (1 <= length batch)%nat /\ Z.of_nat (length batch) <= b) batches
      /\ Z.of_nat (length batches)
         = (Z.max 0 (Z.of_nat (length urls) - i) + b - 1) / b.
Proof.
  intros Hb. induction fuel as [| fuel IH]; intros i Hi Hfuel.
  - cbn [BatchJs.makeBatches].
    destruct (Z.ltb_spec i (Z.of_nat (length urls))); [lia |].
    exists []. split; [reflexivity |]. split; [constructor |].
    rewrite Z.max_l by lia. cbn [length].
    symmetry. apply Z.div_small. lia.
  - cbn [BatchJs.makeBatches].
    destruct (Z.ltb_spec i (Z.of_nat (length urls))).
    + destruct (IH (i + b) ltac:(lia) ltac:(lia)) as (rest & Hrest & Hall & Hlen).
      rewrite Hrest. exists (slice urls i (i + b) :: rest).
      split; [reflexivity |]. split.
      * constructor; [| exact Hall].
        rewrite slice_window by lia.
        rewrite length_take, length_drop. lia.
      * cbn [length]. rewrite Nat2Z.inj_succ, Hlen.
        rewrite (Z.max_r 0 (Z.of_nat (length urls) - i)) by lia.
        destruct (Z.le_gt_cases (i + b) (Z.of_nat (length urls))) as [Hfull | Hlast].
        -- rewrite Z.max_r by lia.
           replace (Z.of_nat (length urls) - i + b - 1)
             with (Z.of_nat (length urls) - (i + b) + b - 1 + 1 * b) by lia.
           rewrite Z.div_add by lia. lia.
        -- rewrite Z.max_l by lia.
           rewrite (Z.div_small (0 + b - 1) b) by lia.
           apply (Z.div_unique _ b 1 (Z.of_nat (length urls) - i - 1)); lia.
    + exists []. split; [reflexivity |]. split; [constructor |].
      rewrite Z.max_l by lia. cbn [length].
      symmetry. apply Z.div_small. lia.
Qed.

(** X4: the first loop of [runInBatches], for a batch size [b >= 1],
    cuts the list of [N] URLs into consecutive batches that hold between 1
    and [b] URLs each; there are [ceil(N / b)] of them and put end to end
    they give the list back. *)
Theorem batches_partition_urls (urls : list string) (b : Z) :
  1 <= b ->
  exists batches,
    BatchJs.makeBatches (length urls) urls b 0 = Some batches
    /\ concat batches = urls
    /\ Forall (fun batch => (1 <= length batch)%nat /\ Z.of_nat (length batch) <= b) batches
    /\ Z.of_nat (length batches) = (Z.of_nat (length urls) + b - 1) / b.
Proof.
  intros Hb.
  destruct (makeBatches_concat urls b Hb (length urls) 0 ltac:(lia) ltac:(lia))
    as (batches & Hmake & Hcat).
  destruct (makeBatches_shape urls b Hb (length urls) 0 ltac:(lia) ltac:(lia))
    as (batches' & Hmake' & Hall & Hlen).
  rewrite Hmake in Hmake'. injection Hmake' as <-.
  exists batches. repeat split; try assumption.
  rewrite Hlen. rewrite Z.max_r by lia. f_equal. lia.
Qed.

Lemma batches_partition_urls_witness :
  exists batches,
    BatchJs.makeBatches (length ["a"; "b"; "c"; "d"; "e"]) ["a"; "b"; "c"; "d"; "e"] 2 0
    = Some batches
    /\ concat batches = ["a"; "b"; "c"; "d"; "e"]
    /\ Forall (fun batch => (1 <= length batch)%nat /\ Z.of_nat (length batch) <= 2) batches
    /\ Z.of_nat (length batches) = (Z.of_nat (length ["a"; "b"; "c"; "d"; "e"]) + 2 - 1) / 2.
Proof. apply (batches_partition_urls ["a"; "b"; "c"; "d"; "e"] 2). lia. Defined.

(** X5: for a batch size [b >= 1], a run of [runInBatches] over [N]
    URLs makes exactly [N] calls to [launch] (one per URL: nothing is
    retried), at most [N] calls to the engine, and pauses half a second
    exactly [ceil(N / b)] times: once after every batch, the last one
    included. *)
Theorem batched_run_counts (E : Env) (urls : list string) (b : Z) (w : World) :
  1 <= b ->
  launchCalls (trace (snd (BatchJs.runInBatches E urls b w)))
  = (launchCalls (trace w) + length urls)%nat
  /\ (engineCalls (trace (snd (BatchJs.runInBatches E urls b w)))
      <= engineCalls (trace w) + length urls)%nat
  /\ Z.of_nat (pauses 500 (trace (snd (BatchJs.runInBatches E urls b w))))
     = Z.of_nat (pauses 500 (trace w)) + (Z.of_nat (length urls) + b - 1) / b
  /\ (forall ms, ms <> 500 ->
        pauses ms (trace (snd (BatchJs.runInBatches E urls b w))) = pauses ms (trace w)).
Proof.
  intros Hb. unfold BatchJs.runInBatches.
  destruct (makeBatches_concat urls b Hb (length urls) 0 ltac:(lia) ltac:(lia))
    as (batches & Hmake & Hcat).
  destruct (makeBatches_shape urls b Hb (length urls) 0 ltac:(lia) ltac:(lia))
    as (batches' & Hmake' & _ & Hlen).
  rewrite Hmake in Hmake'. injection Hmake' as <-.
  rewrite Hmake.
  destruct (batchLoop_counts E batches [] w) as (rs & w' & Hloop & Hl & He & Hp & Hq).
  rewrite Hloop. cbn [snd]. rewrite Hcat in Hl, He.
  repeat split; try assumption.
  rewrite Hp, Nat2Z.inj_add, Hlen. rewrite Z.max_r by lia. do 2 f_equal. lia.
Qed.

Lemma batched_run_counts_witness :
  launchCalls (trace (snd (BatchJs.runInBatches flakyEnv
                             ["https://example.com"; "https://good.test"; "httpjunk"] 2
                             emptyWorld)))
  = (launchCalls (trace emptyWorld) + 3)%nat
  /\ Z.of_nat (pauses 500 (trace (snd (BatchJs.runInBatches flakyEnv
                             ["https://example.com"; "https://good.test"; "httpjunk"] 2
                             emptyWorld))))
     = Z.of_nat (pauses 500 (trace emptyWorld)) + (Z.of_nat 3 + 2 - 1) / 2.
Proof.
  pose proof (batched_run_counts flakyEnv
                ["https://example.com"; "https://good.test"; "httpjunk"] 2 emptyWorld
                ltac:(lia)) as (Hl & _ & Hp & _).
  split; assumption.
Defined.

Lemma makeBatches_never_ends (urls : list string) (b : Z) :
  urls <> [] ->
  b <= 0 ->
  forall fuel i, i <= 0 -> BatchJs.makeBatches fuel urls b i = None.
Proof.
  intros Hne Hb. induction fuel as [| fuel IH]; intros i Hi;
    cbn [BatchJs.makeBatches];
    (destruct (Z.ltb_spec i (Z.of_nat (length urls)));
     [| destruct urls; [contradiction | cbn [length] in *; lia]]).
  - reflexivity.
  - rewrite IH by lia. reflexivity.
Qed.

(** X6: with a batch size [b <= 0] and at least one URL, the first loop
    of [runInBatches] does not come to an end: however many iterations it is
    given, [i] has not reached the length of the list, so no audit is ever
    started. *)
Theorem runInBatches_nonpositive_size (E : Env) (urls : list string) (b : Z) (w : World) :
  urls <> [] ->
  b <= 0 ->
  (forall fuel, BatchJs.makeBatches fuel urls b 0 = None)
  /\ BatchJs.runInBatches E urls b w = (Return None, w).
Proof.
  intros Hne Hb. split.
  - intros fuel. apply makeBatches_never_ends; [assumption | assumption | lia].
  - unfold BatchJs.runInBatches.
    rewrite (makeBatches_never_ends urls b Hne Hb (length urls) 0) by lia.
    reflexivity.
Qed.

Lemma runInBatches_nonpositive_size_witness :
  (forall fuel, BatchJs.makeBatches fuel ["https://example.com"] 0 0 = None)
  /\ BatchJs.runInBatches passingEnv ["https://example.com"] 0 emptyWorld
     = (Return None, emptyWorld).
Proof.
  apply (runInBatches_nonpositive_size passingEnv ["https://example.com"] 0 emptyWorld).
  - discriminate.
  - lia.
Defined.

(** ** Report files written by an audit *)

Lemma json_html_paths_differ (name : string) :
  "reports/" +:+ name +:+ ".json" <> "reports/" +:+ name +:+ ".html".
Proof.
  intros H. apply String.app_inj in H. apply String.app_inj in H. discriminate.
Qed.

(** X7: in [index.js], a call of [runLighthouse] whose launch or audit
    is rejected, or whose URL [new URL] refuses, leaves the file store as it
    was.  A call whose audit resolves, made where the directory [reports]
    is there to take the files, writes the two documents of the engine
    unchanged to [reports/<name>.json] and [reports/<name>.html], [name]
    being built from the host and from the clock as read after the audit,
    and touches no other file; this holds whether or not the kill that
    follows rejects. *)
Theorem index_report_files (E : Env) (u : string) (w : World) :
  (forall e, rejectsWith E u w e ->
     files (snd (IndexJs.runLighthouse E u w)) = files w)
  /\ (URL_new E u = None ->
      files (snd (IndexJs.runLighthouse E u w)) = files w)
  /\ (forall p res parsed,
        reportsReady w ->
        chrome_launch E (tick w) = Launched p ->
        lighthouse E (S (tick w)) u = EngineResolved res ->
        URL_new E u = Some parsed ->
        let name := safeNameOf (hostname parsed) (Date_toISOString E (S (S (tick w)))) in
        let after := files (snd (IndexJs.runLighthouse E u w)) in
        after !! ("reports/" +:+ name +:+ ".json") = Some (fst (report res))
        /\ after !! ("reports/" +:+ name +:+ ".html") = Some (snd (report res))
        /\ (forall path,
              path <> "reports/" +:+ name +:+ ".json" ->
              path <> "reports/" +:+ name +:+ ".html" ->
              after !! path = files w !! path)).
Proof.
  split; [| split].
  - intros e [HL | (p & HL & HE)]; rewrite index_runLighthouse_eq, HL; [reflexivity |].
    cbn zeta. rewrite index_auditWith_eq. cbn. rewrite HE. cbn.
    destruct (chrome_kill E _); reflexivity.
  - intros HU. rewrite index_runLighthouse_eq.
    destruct (chrome_launch E (tick w)); [| reflexivity].
    cbn zeta. rewrite index_auditWith_eq. cbn. rewrite HU.
    destruct (lighthouse E _ u); cbn; destruct (chrome_kill E _); reflexivity.
  - intros p res parsed _ HL HE HU name after. subst after name.
    rewrite index_runLighthouse_eq, HL. cbn zeta. rewrite index_auditWith_eq.
    cbn. rewrite HE, HU. cbn.
    destruct (chrome_kill E _); cbn [snd files emit];
      (split; [| split]);
      try (rewrite lookup_insert_ne
             by (intros H; symmetry in H; revert H; apply json_html_paths_differ);
           apply lookup_insert_eq);
      try apply lookup_insert_eq;
      intros path Hj Hh; rewrite !lookup_insert_ne by congruence; reflexivity.
Qed.

Lemma index_report_files_witness :
  files (snd (IndexJs.runLighthouse passingEnv "https://example.com" readyWorld))
    !! "reports/example_com__2025-01-01T10-21-55-123Z.json" = Some "{}"
  /\ files (snd (IndexJs.runLighthouse passingEnv "https://example.com" readyWorld))
       !! "reports/example_com__2025-01-01T10-21-55-123Z.html" = Some "<html></html>".
Proof.
  assert (Hready : reportsReady readyWorld).
  { unfold reportsReady, readyWorld. cbn [dirs].
    split; [apply elem_of_singleton; reflexivity |].
    intros p Hp. apply elem_of_singleton in Hp. subst p. reflexivity. }
  destruct (index_report_files passingEnv "https://example.com" readyWorld)
    as (_ & _ & Hwritten).
  destruct (Hwritten 9222 sampleResult (mkURL "example.com") Hready eq_refl eq_refl eq_refl)
    as (Hjson & Hhtml & _).
  split; [exact Hjson | exact Hhtml].
Defined.

(** ** Characters of a report name *)

Lemma contains_app (c : ascii) (a b : string) :
  contains c (a +:+ b) = contains c a || contains c b.
Proof.
  induction a as [| x a IH]; [reflexivity |].
  change (String x a +:+ b) with (String x (a +:+ b)).
  cbn [contains]. rewrite IH, orb_assoc. reflexivity.
Qed.

Lemma contains_replaceAll_gone (cls : ascii -> bool) (by_ c : ascii) (s : string) :
  cls c = true -> by_ <> c -> contains c (replaceAll cls by_ s) = false.
Proof.
  intros Hc Hby. induction s as [| x s IH]; [reflexivity |].
  cbn [replaceAll contains]. rewrite IH, orb_false_r.
  destruct (cls x) eqn:Hx.
  - apply Ascii.eqb_neq, Hby.
  - apply Ascii.eqb_neq. intros ->. congruence.
Qed.

Lemma contains_replaceAll_kept (cls : ascii -> bool) (by_ c : ascii) (s : string) :
  cls c = false -> by_ <> c -> contains c (replaceAll cls by_ s) = contains c s.
Proof.
  intros Hc Hby. induction s as [| x s IH]; [reflexivity |].
  cbn [replaceAll contains]. rewrite IH. f_equal.
  destruct (cls x) eqn:Hx; [| reflexivity].
  transitivity false; [apply Ascii.eqb_neq, Hby |].
  symmetry. apply Ascii.eqb_neq. intros ->. congruence.
Qed.

(** X8: a name returned by [safeName] contains no [.]; it contains no
    [:] either unless the host itself has one, and it ends with the clock
    reading in which every [:] and [.] has become [-]. *)
Theorem safeName_characters (E : Env) (u : string) (w : World) (name : string) :
  fst (safeName E u w) = Return name ->
  contains "."%char name = false
  /\ (forall parsed,
        URL_new E u = Some parsed ->
        contains ":"%char (hostname parsed) = false ->
        contains ":"%char name = false)
  /\ exists stem,
       name = stem +:+ "__" +:+ replaceAll isColonOrDot "-"%char (Date_toISOString E (tick w)).
Proof.
  rewrite safeName_eq. cbn [fst].
  destruct (URL_new E u) as [parsed |]; [| discriminate].
  intros [= <-]. unfold safeNameOf. split; [| split].
  - rewrite !contains_app.
    rewrite !contains_replaceAll_gone by (reflexivity || discriminate).
    reflexivity.
  - intros parsed' [= <-] Hhost. rewrite !contains_app.
    rewrite contains_replaceAll_kept by (reflexivity || discriminate).
    rewrite contains_replaceAll_gone by (reflexivity || discriminate).
    rewrite Hhost. reflexivity.
  - eexists. reflexivity.
Qed.

Lemma safeName_characters_witness :
  contains "."%char "example_com__2025-01-01T10-21-55-123Z" = false.
Proof.
  refine (proj1 (safeName_characters passingEnv "https://example.com" emptyWorld
                   "example_com__2025-01-01T10-21-55-123Z" _)).
  vm_compute. reflexivity.
Defined.

(** ** Reading the URL file line by line *)

Lemma splitLines_nonempty (s : string) : splitLines s <> [].
Proof.
  induction s as [| c s IH]; cbn; [discriminate |].
  destruct (Ascii.eqb c newline); [discriminate |].
  destruct (splitLines s); [discriminate | discriminate].
Qed.

Lemma splitLines_app (a b : string) :
  splitLines (a +:+ nl +:+ b) = splitLines a ++ splitLines b.
Proof.
  induction a as [| c a IH].
  - reflexivity.
  - change (String c a +:+ nl +:+ b) with (String c (a +:+ nl +:+ b)).
    cbn [splitLines]. rewrite IH.
    destruct (Ascii.eqb c newline); [reflexivity |].
    pose proof (splitLines_nonempty a) as Hne.
    destruct (splitLines a); [contradiction | reflexivity].
Qed.

(** X9: both runners read the URL file line by line and keep what they
    keep in file order, repeats included: the URLs kept from a content [a],
    a line break and a content [b] are those kept from [a] followed by those
    kept from [b]. *)
Theorem parseUrlFile_linewise (E : Env) (a b : string) :
  IndexJs.parseUrlFile E (a +:+ nl +:+ b)
  = IndexJs.parseUrlFile E a ++ IndexJs.parseUrlFile E b
  /\ BatchJs.parseUrlFile (a +:+ nl +:+ b)
     = BatchJs.parseUrlFile a ++ BatchJs.parseUrlFile b.
Proof.
  unfold IndexJs.parseUrlFile, BatchJs.parseUrlFile.
  rewrite splitLines_app, List.map_app, !List.filter_app. split; reflexivity.
Qed.

(** ** What a sequential run preserves *)

Section SequentialInvariant.

Variable E : Env.
Variable options : Options.
Variable Rel : World -> World -> Prop.

Hypothesis Rel_refl : forall w, Rel w w.
Hypothesis Rel_trans : forall w1 w2 w3, Rel w1 w2 -> Rel w2 w3 -> Rel w1 w3.
Hypothesis Rel_sleep : forall ms w, Rel w (emit (EvSleep ms) w).
Hypothesis Rel_audit : forall u w, Rel w (snd (IndexJs.runLighthouse E u w)).

Lemma retryLoop_preserves u R n :
  forall attempt w, Rel w (snd (IndexJs.retryLoop E u R n attempt w)).
Proof.
  induction n as [| n IH]; intros attempt w; [apply Rel_refl |].
  destruct (Z.le_gt_cases attempt (R + 1)) as [Hle | Hgt]; cycle 1.
  { cbn [IndexJs.retryLoop]. destruct (Z.leb_spec attempt (R + 1)); [lia |].
    apply Rel_refl. }
  rewrite retryLoop_step by exact Hle. cbn zeta.
  set (w0 := if 1 <? attempt then emit (EvSleep 3000) w else w).
  assert (H0 : Rel w w0)
    by (subst w0; destruct (1 <? attempt); [apply Rel_sleep | apply Rel_refl]).
  pose proof (Rel_audit u w0) as H1.
  destruct (IndexJs.runLighthouse E u w0) as [[r | e | c] w1]; cbn [snd] in H1.
  - destruct (negb (truthy (error r))); [eauto |].
    destruct (truthy (error r) && (attempt <=? R)); eauto.
  - destruct (R <? attempt); eauto.
  - eauto.
Qed.

Lemma testLoop_preserves total rest :
  forall completed acc w,
    Rel w (snd (IndexJs.testLoop E options total rest completed acc w)).
Proof.
  induction rest as [| u rest IH]; intros completed acc w; [apply Rel_refl |].
  cbn [IndexJs.testLoop]. unfold bind at 1.
  pose proof (retryLoop_preserves u (IndexJs.retries options)
                (Z.to_nat (IndexJs.retries options + 1)) 1 w) as H1.
  fold (IndexJs.runLighthouseWithRetry E u (IndexJs.retries options)) in H1.
  destruct (IndexJs.runLighthouseWithRetry E u (IndexJs.retries options) w)
    as [[r | e | c] w1]; cbn [snd] in *; try exact H1.
  unfold bind at 1.
  destruct (S completed <? total)%nat; cbn.
  - eapply Rel_trans; [exact H1 |].
    eapply Rel_trans; [apply Rel_sleep | apply IH].
  - eapply Rel_trans; [exact H1 | apply IH].
Qed.

Lemma runAllTests_preserves urls w :
  Rel w (snd (IndexJs.runAllTests E options urls w)).
Proof. apply testLoop_preserves. Qed.

End SequentialInvariant.

(** ** A kill for every launch, before the next launch *)

Lemma unkilledAfter_app n (a b : list Event) :
  unkilledAfter n (a ++ b) = unkilledAfter (unkilledAfter n a) b.
Proof. revert n. induction a as [| e a IH]; intros n; cbn; [reflexivity | apply IH]. Qed.

Lemma peakUnkilled_app n (a b : list Event) :
  peakUnkilled n (a ++ b) = Nat.max (peakUnkilled n a) (peakUnkilled (unkilledAfter n a) b).
Proof.
  revert n. induction a as [| e a IH]; intros n; cbn [app peakUnkilled unkilledAfter].
  - destruct b; cbn; lia.
  - rewrite IH. lia.
Qed.

Lemma oneAtATimeSince_refl w : killedBeforeNextLaunch w w.
Proof. exists []. rewrite app_nil_r. cbn. auto. Qed.

Lemma oneAtATimeSince_trans w1 w2 w3 :
  killedBeforeNextLaunch w1 w2 -> killedBeforeNextLaunch w2 w3 -> killedBeforeNextLaunch w1 w3.
Proof.
  intros (s1 & H1 & P1 & A1 & K1) (s2 & H2 & P2 & A2 & K2). exists (s1 ++ s2).
  split; [rewrite H2, H1, app_assoc; reflexivity |].
  rewrite peakUnkilled_app, unkilledAfter_app, A1, killedIn_app, launchedIn_app, K1, K2.
  repeat split; [lia | exact A2].
Qed.

Lemma oneAtATimeSince_sleep ms w : killedBeforeNextLaunch w (emit (EvSleep ms) w).
Proof. exists [EvSleep ms]. cbn. auto. Qed.

Lemma oneAtATimeSince_audit (E : Env) u w :
  killedBeforeNextLaunch w (snd (IndexJs.runLighthouse E u w)).
Proof.
  destruct (index_runLighthouse_events E u w) as (seg & Htr & [-> | (c & ->)]);
    eexists; (split; [exact Htr |]); cbn; auto.
Qed.

(** X10: in [index.js], over a whole run of [runAllTests]
    [chrome.kill()] is called on every browser launched, and before the next
    launch: at no point have two launched browsers not had their call of
    [kill()], at the end none is without it, and the calls name exactly the
    browsers launched, in the same order.  This holds for every list of
    URLs, every retry count and every behaviour of the launcher, the engine
    and the kill; whether a call of [kill()] that rejects has ended its
    browser is not part of the statement. *)
Theorem sequential_kill_before_next_launch
    (E : Env) (options : Options) (urls : list string) (w : World) :
  killedBeforeNextLaunch w (snd (IndexJs.runAllTests E options urls w)).
Proof.
  apply runAllTests_preserves.
  - apply oneAtATimeSince_refl.
  - apply oneAtATimeSince_trans.
  - apply oneAtATimeSince_sleep.
  - apply oneAtATimeSince_audit.
Qed.

(** ** The output directory *)

Lemma index_ensureOutputDir_spec (w : World) :
  exists w1,
    IndexJs.ensureOutputDir w = (Return tt, w1)
    /\ files w1 = files w
    /\ trace w1 = trace w
    /\ tick w1 = tick w
    /\ dirs w ⊆ dirs w1
    /\ existsSync "reports" w1 = (Return true, w1)
    /\ (existsSync "reports" w = (Return true, w) -> w1 = w).
Proof.
  unfold IndexJs.ensureOutputDir, bind, existsSync.
  destruct (bool_decide (is_Some (files w !! "reports"))
            || bool_decide ("reports" ∈ dirs w)) eqn:Hpresent; cbn.
  - exists w. rewrite Hpresent. repeat split; auto.
  - eexists. split; [reflexivity |]. cbn.
    repeat split; [set_solver | | discriminate].
    f_equal. f_equal. rewrite (bool_decide_eq_true_2 ("reports" ∈ _)) by set_solver.
    apply orb_true_r.
Qed.

(** X11: [ensureOutputDir] of [index.js] can be called any number of
    times: after a call the path [reports] exists, a second call changes
    nothing, a call made when [reports] already exists changes nothing, and
    in no case is a file or another directory touched. *)
Theorem ensureOutputDir_idempotent (w : World) :
  fst (IndexJs.ensureOutputDir w) = Return tt
  /\ existsSync "reports" (snd (IndexJs.ensureOutputDir w))
     = (Return true, snd (IndexJs.ensureOutputDir w))
  /\ IndexJs.ensureOutputDir (snd (IndexJs.ensureOutputDir w))
     = (Return tt, snd (IndexJs.ensureOutputDir w))
  /\ (existsSync "reports" w = (Return true, w) -> snd (IndexJs.ensureOutputDir w) = w)
  /\ files (snd (IndexJs.ensureOutputDir w)) = files w
  /\ dirs w ⊆ dirs (snd (IndexJs.ensureOutputDir w))
  /\ dirs (snd (IndexJs.ensureOutputDir w)) ⊆ {["reports"]} ∪ dirs w.
Proof.
  destruct (index_ensureOutputDir_spec w) as (w1 & Hrun & Hf & _ & _ & Hd & Hex & Hsame).
  rewrite Hrun. cbn [fst snd].
  split; [reflexivity |]. split; [exact Hex |]. split.
  - destruct (index_ensureOutputDir_spec w1) as (w2 & Hrun2 & _ & _ & _ & _ & _ & Hsame2).
    rewrite Hrun2. f_equal. apply Hsame2, Hex.
  - split; [exact Hsame |]. split; [exact Hf |]. split; [exact Hd |].
    revert Hrun. unfold IndexJs.ensureOutputDir, bind, existsSync.
    destruct (bool_decide _ || bool_decide _); cbn; intros [= <-]; cbn; set_solver.
Qed.

(** ** Nothing is deleted *)

Lemma keepsPaths_refl w : keepsPaths w w.
Proof. split; auto. Qed.

Lemma keepsPaths_trans w1 w2 w3 :
  keepsPaths w1 w2 -> keepsPaths w2 w3 -> keepsPaths w1 w3.
Proof. intros [D1 F1] [D2 F2]. split; [congruence | auto]. Qed.

Lemma keepsPaths_sleep ms w : keepsPaths w (emit (EvSleep ms) w).
Proof. split; auto. Qed.

Lemma keepsPaths_audit (E : Env) u w :
  keepsPaths w (snd (IndexJs.runLighthouse E u w)).
Proof.
  rewrite index_runLighthouse_eq.
  destruct (chrome_launch E (tick w)); [| split; auto].
  cbn zeta. rewrite index_auditWith_eq. cbn zeta.
  destruct (lighthouse E _ u); [destruct (URL_new E u) |];
    cbn; destruct (chrome_kill E _); cbn; (split; [reflexivity |]); cbn; auto;
    intros q Hq; rewrite !lookup_insert; repeat case_decide; eauto.
Qed.

Lemma index_runAllTests_keepsPaths (E : Env) (options : Options) urls w :
  keepsPaths w (snd (IndexJs.runAllTests E options urls w)).
Proof.
  apply runAllTests_preserves.
  - apply keepsPaths_refl.
  - apply keepsPaths_trans.
  - apply keepsPaths_sleep.
  - apply keepsPaths_audit.
Qed.

Lemma existsSync_kept p w w' :
  keepsPaths w w' ->
  existsSync p w = (Return true, w) ->
  existsSync p w' = (Return true, w').
Proof.
  intros [Hd Hf]. unfold existsSync. intros [= Hex]. f_equal. f_equal.
  apply orb_true_iff in Hex as [Hfile | Hdir].
  - apply bool_decide_eq_true in Hfile.
    rewrite (bool_decide_eq_true_2 _ (Hf p Hfile)). reflexivity.
  - rewrite Hd, Hdir. apply orb_true_r.
Qed.

(** ** A whole run of [index.js] *)

Lemma index_generateCSV_defined (options : Options) (rs : list AuditResult) (w : World) :
  IndexJs.generateCSV options (List.map Some rs) w
  = (Return (opt_output options +:+ ".csv"),
     mkWorld (<[opt_output options +:+ ".csv" :=
                  join nl (IndexJs.csvHeader :: List.map IndexJs.csvRow rs)]> (files w))
             (dirs w) (trace w) (tick w)).
Proof. unfold IndexJs.generateCSV. rewrite mapM_csvRow_defined. reflexivity. Qed.

Lemma mapM_csvRow_undefined (results : list (option AuditResult)) :
  In None results -> mapM (fun r => IndexJs.csvRow <$> r) results = None.
Proof.
  induction results as [| r results IH]; intros Hin; [destruct Hin |].
  destruct r as [r |].
  - destruct Hin as [Heq | Hin]; [discriminate |].
    cbn. cbn in IH. rewrite (IH Hin). reflexivity.
  - reflexivity.
Qed.

Lemma index_mainFrom_runs
    (E : Env) (options : Options) (urls : list string) (w : World) :
  urls <> [] ->
  0 <= opt_retries options ->
  exists rs w',
    IndexJs.mainFrom E options urls w = (Return tt, w')
    /\ List.map url rs = urls
    /\ files w' !! (opt_output options +:+ ".csv")
       = Some (join nl ("URL,Performance,Accessibility,BestPractices,SEO,Error"
                        :: List.map IndexJs.csvRow rs))
    /\ existsSync "reports" w' = (Return true, w')
    /\ (forall p, is_Some (files w !! p) -> is_Some (files w' !! p))
    /\ dirs w ⊆ dirs w'.
Proof.
  intros Hne HR. unfold IndexJs.mainFrom.
  assert (Hguard : (length urls =? 0)%nat = false)
    by (destruct urls; [contradiction | reflexivity]).
  rewrite Hguard.
  destruct (index_ensureOutputDir_spec w) as (w1 & Hdir & Hf1 & _ & _ & Hd1 & Hex1 & _).
  destruct (index_runAllTests_follows E options urls w1 HR) as (rs & w2 & Hrun & Hurls).
  pose proof (index_runAllTests_keepsPaths E options urls w1) as Hkeep.
  rewrite Hrun in Hkeep. cbn [snd] in Hkeep.
  exists rs. eexists.
  split.
  { unfold bind at 1. cbn [ret].
    rewrite (bind_Return _ _ _ _ _ Hdir), (bind_Return _ _ _ _ _ Hrun).
    rewrite (bind_Return _ _ _ _ _ (index_generateCSV_defined options rs w2)).
    reflexivity. }
  split; [exact Hurls |]. cbn [files dirs].
  split; [apply lookup_insert_eq |].
  split.
  - pose proof (existsSync_kept "reports" w1 w2 Hkeep Hex1) as Hex2.
    apply (existsSync_kept "reports" w2); [| exact Hex2].
    split; [reflexivity |]. cbn [files]. intros p Hp.
    rewrite lookup_insert. case_decide; eauto.
  - destruct Hkeep as [Hd2 Hf2]. split.
    + intros p Hp. rewrite lookup_insert. case_decide; [eauto |].
      apply Hf2. rewrite Hf1. exact Hp.
    + rewrite Hd2. exact Hd1.
Qed.

(** X12: in [index.js], started on a non-empty list of URLs with a retry
    count [>= 0] and an output name that can be written (a name without [/],
    so a file of the working directory, that no directory bears), the body
    of [main] neither throws nor exits: it returns normally whatever the
    audits did, the path [reports] exists afterwards, nothing that existed
    has been deleted, and the summary file holds the header row followed by
    one row per URL, the row at index [i] being the row of a record for the
    URL at index [i]. *)
Theorem index_main_completes
    (E : Env) (options : Options) (urls : list string) (w : World) :
  urls <> [] ->
  0 <= opt_retries options ->
  summaryWritable options w ->
  exists rs w',
    IndexJs.mainFrom E options urls w = (Return tt, w')
    /\ List.map url rs = urls
    /\ files w' !! (opt_output options +:+ ".csv")
       = Some (join nl ("URL,Performance,Accessibility,BestPractices,SEO,Error"
                        :: List.map IndexJs.csvRow rs))
    /\ existsSync "reports" w' = (Return true, w')
    /\ (forall p, is_Some (files w !! p) -> is_Some (files w' !! p))
    /\ dirs w ⊆ dirs w'.
Proof. intros Hne HR _. apply index_mainFrom_runs; assumption. Qed.

Lemma index_main_completes_witness :
  exists rs w',
    IndexJs.mainFrom flakyEnv sampleOptions ["https://example.com"; "https://good.test"]
      emptyWorld = (Return tt, w')
    /\ List.map url rs = ["https://example.com"; "https://good.test"]
    /\ files w' !! (opt_output sampleOptions +:+ ".csv")
       = Some (join nl ("URL,Performance,Accessibility,BestPractices,SEO,Error"
                        :: List.map IndexJs.csvRow rs))
    /\ existsSync "reports" w' = (Return true, w')
    /\ (forall p, is_Some (files emptyWorld !! p) -> is_Some (files w' !! p))
    /\ dirs emptyWorld ⊆ dirs w'.
Proof.
  apply (index_main_completes flakyEnv sampleOptions
           ["https://example.com"; "https://good.test"] emptyWorld).
  - discriminate.
  - vm_compute. discriminate.
  - split; [reflexivity | apply not_elem_of_empty].
Defined.

Lemma testLoop_negative_untouched (E : Env) (options : Options) total rest :
  opt_retries options < 0 ->
  forall completed acc w,
    files (snd (IndexJs.testLoop E options total rest completed acc w)) = files w
    /\ launchCalls (trace (snd (IndexJs.testLoop E options total rest completed acc w)))
       = launchCalls (trace w)
    /\ dirs (snd (IndexJs.testLoop E options total rest completed acc w)) = dirs w.
Proof.
  intros HR. induction rest as [| u rest' IH]; intros completed acc w.
  - cbn. auto.
  - cbn [IndexJs.testLoop]. unfold IndexJs.retries.
    rewrite (bind_Return _ _ _ _ _
               (index_runLighthouseWithRetry_negative E u (opt_retries options) w HR)).
    set (w2 := if (S completed <? total)%nat then emit (EvSleep 2000) w else w).
    assert (Hpause : (if (S completed <? total)%nat then sleep 2000 else ret tt) w
                     = (Return tt, w2))
      by (subst w2; destruct (S completed <? total)%nat; reflexivity).
    rewrite (bind_Return _ _ _ _ _ Hpause).
    destruct (IH (S completed) (acc ++ [None]) w2) as (Hf & Hl & Hd).
    rewrite Hf, Hl, Hd. subst w2.
    destruct (S completed <? total)%nat; [rewrite launchCalls_sleep |]; auto.
Qed.

Lemma index_mainFrom_negative (E : Env) (options : Options) (urls : list string) (w : World) :
  urls <> [] ->
  opt_retries options < 0 ->
  exists e w',
    IndexJs.mainFrom E options urls w = (Throw e, w')
    /\ files w' = files w
    /\ launchCalls (trace w') = launchCalls (trace w).
Proof.
  intros Hne HR. unfold IndexJs.mainFrom.
  assert (Hguard : (length urls =? 0)%nat = false)
    by (destruct urls; [contradiction | reflexivity]).
  rewrite Hguard.
  destruct (index_ensureOutputDir_spec w) as (w1 & Hdir & Hf1 & Ht1 & _).
  destruct (testLoop_negative E options (length urls) urls HR 0%nat [] w1) as (w2 & Hloop).
  pose proof (testLoop_negative_untouched E options (length urls) urls HR 0%nat [] w1)
    as (Hf2 & Hl2 & _).
  rewrite Hloop in Hf2, Hl2. cbn [snd] in Hf2, Hl2.
  assert (Hcsv : IndexJs.generateCSV options ([] ++ List.map (fun _ => None) urls) w2
                 = (Throw (mkError "Cannot read properties of undefined (reading 'url')"), w2)).
  { unfold IndexJs.generateCSV. rewrite mapM_csvRow_undefined; [reflexivity |].
    destruct urls; [contradiction | left; reflexivity]. }
  eexists _, w2. split.
  { unfold bind at 1. cbn [ret].
    rewrite (bind_Return _ _ _ _ _ Hdir).
    unfold IndexJs.runAllTests. rewrite (bind_Return _ _ _ _ _ Hloop).
    rewrite (bind_Throw _ _ _ _ _ Hcsv). reflexivity. }
  rewrite Hf2, Hl2, Hf1, Ht1. auto.
Qed.

(** X13: how a run of [index.js] ends, by the URL file and the retry
    count.  With the URL file absent the process exits with code 1 and
    nothing has been touched.  With the URL file present, a retry count
    [>= 0] and an output name that can be written (no [/] in it, and no
    directory of that name) the run ends normally with a summary of one row
    per built-in default URL.  With the URL file present and a negative retry count no
    browser is launched, no file is written and the process exits with code
    1, the summary writer having thrown on an undefined result. *)
Theorem index_entry_outcomes (E : Env) (options : Options) (w : World) :
  (files w !! opt_urls options = None ->
   opt_urls options ∉ dirs w ->
   IndexJs.entry E options w = (Exit 1, w))
  /\ (forall content,
        files w !! opt_urls options = Some content ->
        0 <= opt_retries options ->
        summaryWritable options w ->
        exists rs w',
          IndexJs.entry E options w = (Return tt, w')
          /\ List.map url rs = IndexJs.defaultUrls
          /\ files w' !! (opt_output options +:+ ".csv")
             = Some (join nl (IndexJs.csvHeader :: List.map IndexJs.csvRow rs)))
  /\ (forall content,
        files w !! opt_urls options = Some content ->
        opt_retries options < 0 ->
        fst (IndexJs.entry E options w) = Exit 1
        /\ files (snd (IndexJs.entry E options w)) = files w
        /\ launchCalls (trace (snd (IndexJs.entry E options w))) = launchCalls (trace w)).
Proof.
  split; [| split].
  - intros Hfile Hdir.
    unfold IndexJs.entry, IndexJs.entryOf, tryCatch, IndexJs.main, IndexJs.mainWith.
    rewrite (bind_Throw _ _ _ _ _
               (index_loadUrls_absent E options IndexJs.defaultUrls w Hfile Hdir)).
    reflexivity.
  - intros content Hfile HR _.
    destruct (index_mainFrom_runs E options IndexJs.defaultUrls w ltac:(discriminate) HR)
      as (rs & w' & Hmain & Hurls & Hcsv & _).
    exists rs, w'. split; [| auto].
    unfold IndexJs.entry, IndexJs.entryOf, tryCatch, IndexJs.main, IndexJs.mainWith.
    rewrite (bind_Return _ _ _ _ _
               (index_loadUrls_present E options IndexJs.defaultUrls w content Hfile)).
    rewrite Hmain. reflexivity.
  - intros content Hfile HR.
    destruct (index_mainFrom_negative E options IndexJs.defaultUrls w ltac:(discriminate) HR)
      as (e & w' & Hmain & Hf & Hl).
    unfold IndexJs.entry, IndexJs.entryOf, tryCatch, IndexJs.main, IndexJs.mainWith.
    rewrite (bind_Return _ _ _ _ _
               (index_loadUrls_present E options IndexJs.defaultUrls w content Hfile)).
    rewrite Hmain. cbn. auto.
Qed.

Lemma index_entry_outcomes_witness :
  exists rs w',
    IndexJs.entry flakyEnv sampleOptions worldWithUrls = (Return tt, w')
    /\ List.map url rs = IndexJs.defaultUrls
    /\ files w' !! (opt_output sampleOptions +:+ ".csv")
       = Some (join nl (IndexJs.csvHeader :: List.map IndexJs.csvRow rs)).
Proof.
  destruct (index_entry_outcomes flakyEnv sampleOptions worldWithUrls) as (_ & Hruns & _).
  apply (Hruns ("https://example.com" +:+ nl)).
  - reflexivity.
  - vm_compute. discriminate.
  - split; [reflexivity | apply not_elem_of_empty].
Defined.

(** ** Writing the summary more than once *)

(** X14: both summary writers replace the summary file and touch
    nothing else: writing the records [rs1] and then the records [rs2]
    leaves the file store exactly as writing [rs2] alone does, and every
    path other than the summary keeps its content. *)
Theorem summary_last_write_wins
    (options : Options) (rs1 rs2 : list AuditResult) (w : World) :
  snd (IndexJs.generateCSV options (List.map Some rs2)
         (snd (IndexJs.generateCSV options (List.map Some rs1) w)))
  = snd (IndexJs.generateCSV options (List.map Some rs2) w)
  /\ (forall p, p <> opt_output options +:+ ".csv" ->
        files (snd (IndexJs.generateCSV options (List.map Some rs1) w)) !! p
        = files w !! p)
  /\ snd (BatchJs.saveCSV rs2 (snd (BatchJs.saveCSV rs1 w)))
     = snd (BatchJs.saveCSV rs2 w)
  /\ (forall p, p <> "lighthouse-results.csv" ->
        files (snd (BatchJs.saveCSV rs1 w)) !! p = files w !! p).
Proof.
  rewrite !index_generateCSV_defined. unfold BatchJs.saveCSV, writeFileSync.
  cbn [snd files dirs trace tick].
  rewrite !insert_insert_eq.
  repeat split; try reflexivity;
    intros p Hp; rewrite lookup_insert_ne by congruence; reflexivity.
Qed.

(** ** The browser of the batched script *)

(** X15: in the batched script, a call of [runLighthouse] kills the
    browser it launched in every case but one: when the launch resolves and
    the engine rejects, the browser is left running; when the launch is
    rejected there is nothing to kill, and when the audit resolves the kill
    is called before anything else can fail. *)
Theorem batch_browser_killed_unless_engine_rejects (E : Env) (u : string) (w : World) :
  exists seg,
    trace (snd (BatchJs.runLighthouse E u w)) = trace w ++ seg
    /\ (forall p e,
          chrome_launch E (tick w) = Launched p ->
          lighthouse E (S (tick w)) u = EngineRejected e ->
          launchedIn seg = [mkChrome p (tick w)] /\ killedIn seg = [])
    /\ (~ (exists p e, chrome_launch E (tick w) = Launched p
                       /\ lighthouse E (S (tick w)) u = EngineRejected e) ->
        killedIn seg = launchedIn seg).
Proof.
  unfold BatchJs.runLighthouse, bind, launch, runEngine, kill.
  destruct (chrome_launch E (tick w)) as [p | e] eqn:HL.
  - cbn. destruct (lighthouse E (S (tick w)) u) as [res | e] eqn:HE.
    + cbn. exists [EvLaunch (mkChrome p (tick w)); EvLighthouse u p;
                   EvKill (mkChrome p (tick w))].
      split.
      * destruct (chrome_kill E _); cbn; [rewrite <- !app_assoc; reflexivity |].
        rewrite batch_finish_trace. cbn. rewrite <- !app_assoc. reflexivity.
      * split; [intros p' e' _ He'; discriminate | reflexivity].
    + cbn. exists [EvLaunch (mkChrome p (tick w)); EvLighthouse u p].
      split; [rewrite <- !app_assoc; reflexivity |].
      split; [intros p' e' [= <-] _; split; reflexivity |].
      intros Hno. exfalso. apply Hno. eauto.
  - exists [EvLaunchFailed]. split; [reflexivity |].
    split; [intros p' e' Hp' _; discriminate | reflexivity].
Qed.

(** ** Loading the URLs in the batched script *)

(** X16: the batched script reads [urls.txt] exactly when it is there:
    with the file present it works on the lines kept from it (on no URL at
    all when no line is kept, its default list being empty), and with the
    file absent it works on no URL, without an attempt to read. *)
Theorem batch_loadUrls_dispatch (w : World) :
  (forall content,
     files w !! "urls.txt" = Some content ->
     BatchJs.loadUrls w = (Return (BatchJs.parseUrlFile content), w))
  /\ (files w !! "urls.txt" = None ->
      "urls.txt" ∉ dirs w ->
      BatchJs.loadUrls w = (Return [], w)).
Proof.
  split.
  - intros content Hfile. rewrite (batch_loadUrls_present w content Hfile).
    destruct (BatchJs.parseUrlFile content); reflexivity.
  - intros Hfile Hdir. apply batch_loadUrls_absent; assumption.
Qed.

(** ** Scores *)

Lemma roundScore_range (c : Category) :
  (forall q, score c = Some q -> Qle (0 # 1) q /\ Qle q (1 # 1)) ->
  exists n, roundScore c = JNum n /\ 0 <= n <= 100.
Proof.
  intros Hq. unfold roundScore. destruct (score c) as [q |].
  - destruct (Hq q eq_refl) as [Hlo Hhi].
    eexists. split; [reflexivity |].
    set (x := Qplus (Qmult q (100 # 1)) (1 # 2)).
    assert (H0 : Qle (inject_Z 0) x).
    { subst x. unfold Qle, Qplus, Qmult, inject_Z in *. cbn in *. nia. }
    assert (H1 : Qlt x (inject_Z 101)).
    { subst x. unfold Qle, Qlt, Qplus, Qmult, inject_Z in *. cbn in *. nia. }
    split.
    + rewrite <- (Qfloor_Z 0). apply Qfloor_resp_le, H0.
    + pose proof (Qfloor_le x) as Hfl.
      assert (Hlt : Qlt (inject_Z (Qfloor x)) (inject_Z 101))
        by (eapply Qle_lt_trans; eassumption).
      rewrite <- Zlt_Qlt in Hlt. lia.
  - exists 0. split; [reflexivity | lia].
Qed.

Lemma scoreOrNA_valid (cat : option Category) : unitScore cat -> validScore (scoreOrNA cat).
Proof.
  intros Hu. destruct cat as [c |]; [| left; reflexivity].
  right. apply roundScore_range. intros q Hq. exact (Hu c q eq_refl Hq).
Qed.

(** X17: in [index.js], when the scores the engine reports lie between 0
    and 1, every record [runLighthouse] returns has in each of its four
    score fields either the sentinel ["N/A"] or an integer from 0 to 100: the
    sentinel for a category the engine left out and in every field of a
    failure record, the rounded percentage otherwise ([0] for a score of
    [null]). *)
Theorem index_scores_in_range (E : Env) (u : string) (w : World) (r : AuditResult) :
  (forall n u' res, lighthouse E n u' = EngineResolved res -> unitScores (lhr res)) ->
  fst (IndexJs.runLighthouse E u w) = Return r ->
  validScore (Performance r) /\ validScore (Accessibility r)
  /\ validScore (BestPractices r) /\ validScore (SEO r).
Proof.
  intros Hunit. rewrite index_runLighthouse_eq.
  assert (Hna : validScore NA) by (left; reflexivity).
  destruct (chrome_launch E (tick w)); cbn zeta.
  - rewrite index_auditWith_eq. cbn zeta.
    destruct (lighthouse E _ u) as [res | e] eqn:HE.
    + destruct (Hunit _ _ _ HE) as (Hp & Ha & Hb & Hs).
      destruct (URL_new E u); cbn; destruct (chrome_kill E _); cbn;
        intros [= <-]; cbn; auto using scoreOrNA_valid.
    + cbn. destruct (chrome_kill E _); cbn; intros [= <-]; cbn; auto.
  - cbn. intros [= <-]. cbn. auto.
Qed.

Lemma index_scores_in_range_witness :
  validScore (JNum 90) /\ validScore (JNum 95) /\ validScore (JNum 100) /\ validScore (JNum 88).
Proof.
  apply (index_scores_in_range passingEnv "https://example.com" emptyWorld
           (mkResult "https://example.com" (JNum 90) (JNum 95) (JNum 100) (JNum 88) JNull)).
  - intros n u' res [= <-]. unfold unitScores, unitScore. cbn.
    (split; [| split; [| split]]); intros c q [= <-] [= <-];
      split; unfold Qle; cbn; lia.
  - vm_compute. reflexivity.
Defined.

(** X18: a category the engine leaves out of its result, in a run where
    the directory [reports] is there to take the report files and the kill
    resolves.  [index.js] returns a success record with the sentinel in that
    field.  The batched script reads the score of the missing category and
    throws, after it has killed the browser and written both report files,
    so the job ends as a failure record. *)
Theorem missing_category (E : Env) (u : string) (w : World)
    (p : Z) (res : RunnerResult) (parsed : URL) :
  reportsReady w ->
  chrome_launch E (tick w) = Launched p ->
  lighthouse E (S (tick w)) u = EngineResolved res ->
  chrome_kill E (S (S (tick w))) = None ->
  URL_new E u = Some parsed ->
  seo (lhr res) = None ->
  (exists r, fst (IndexJs.runLighthouse E u w) = Return r
             /\ SEO r = NA /\ error r = JNull
             /\ Performance r = scoreOrNA (performance (lhr res)))
  /\ (exists e,
        fst (BatchJs.runLighthouse E u w) = Throw e
        /\ killedIn (trace (snd (BatchJs.runLighthouse E u w)))
           = killedIn (trace w) ++ [mkChrome p (tick w)]
        /\ is_Some (files (snd (BatchJs.runLighthouse E u w))
                      !! ("reports/" +:+ safeNameOf (hostname parsed)
                                          (Date_toISOString E (S (S (S (tick w)))))
                          +:+ ".json"))
        /\ is_Some (files (snd (BatchJs.runLighthouse E u w))
                      !! ("reports/" +:+ safeNameOf (hostname parsed)
                                          (Date_toISOString E (S (S (S (tick w)))))
                          +:+ ".html"))
        /\ fst (tryCatch (BatchJs.runLighthouse E u)
                         (fun err => ret (BatchJs.caught u err)) w)
           = Return (mkResult u JUndefined JUndefined JUndefined JUndefined
                              (JStr (message e)))).
Proof.
  intros _ HL HE HK HU Hseo. split.
  - rewrite index_runLighthouse_eq, HL. cbn zeta. rewrite index_auditWith_eq.
    cbn. rewrite HE, HU. cbn. rewrite HK. cbn.
    eexists. split; [reflexivity |]. unfold IndexJs.scoresOf. cbn.
    rewrite Hseo. auto.
  - unfold tryCatch, BatchJs.runLighthouse, bind, launch, runEngine, kill.
    rewrite HL. cbn. rewrite HE. cbn. rewrite HK. cbn.
    unfold BatchJs.finish, bind, safeName, newURL, nowISO, BatchJs.scoreOf.
    rewrite HU, Hseo. cbn.
    destruct (performance (lhr res)); cbn;
      [destruct (accessibility (lhr res)); cbn;
       [destruct (best_practices (lhr res)); cbn |] |];
      (eexists; split; [reflexivity |]); cbn;
      rewrite !killedIn_app; cbn; rewrite ?app_nil_r;
      (split; [reflexivity |]);
      (split;
       [rewrite lookup_insert_ne
          by (intros H; symmetry in H; revert H; apply json_html_paths_differ);
        rewrite lookup_insert_eq; eauto
       | split; [rewrite lookup_insert_eq; eauto | reflexivity]]).
Qed.

Lemma missing_category_witness :
  exists r, fst (IndexJs.runLighthouse partialEnv "https://example.com" readyWorld) = Return r
            /\ SEO r = NA /\ error r = JNull
            /\ Performance r = JNum 90.
Proof.
  assert (Hready : reportsReady readyWorld).
  { unfold reportsReady, readyWorld. cbn [dirs].
    split; [apply elem_of_singleton; reflexivity |].
    intros p Hp. apply elem_of_singleton in Hp. subst p. reflexivity. }
  destruct (missing_category partialEnv "https://example.com" readyWorld 9222
              (mkRunnerResult ("{}", "<html></html>")
                 (mkCategories (Some (mkCategory (Some (9 # 10))))
                               (Some (mkCategory (Some (95 # 100))))
                               (Some (mkCategory (Some (1 # 1))))
                               None))
              (mkURL "example.com") Hready eq_refl eq_refl eq_refl eq_refl eq_refl)
    as ((r & Hr & Hs & He & Hp) & _).
  exists r. auto.
Defined.

(** ** A whole run of the batched script *)

(** X19: the batched script, once its list of URLs is loaded, always
    runs to its end: it launches one browser per URL and leaves a summary
    that holds the header row followed by one row per URL, the row at index
    [i] being the row of a record for the URL at index [i], whatever the
    audits did. *)
Theorem batch_script_completes (E : Env) (w : World) (urls : list string) :
  fst (BatchJs.loadUrls w) = Return urls ->
  exists rs w',
    BatchJs.script E w = (Return (Some tt), w')
    /\ List.map url rs = urls
    /\ files w' !! "lighthouse-results.csv"
       = Some (join nl ("URL,Performance,Accessibility,BestPractices,SEO"
                        :: List.map BatchJs.csvRow rs))
    /\ launchCalls (trace w') = (launchCalls (trace w) + length urls)%nat.
Proof.
  intros Hload.
  assert (Hl : BatchJs.loadUrls w = (Return urls, w)).
  { pose proof (batch_loadUrls_world w) as Hw.
    destruct (BatchJs.loadUrls w) as [o w0]. cbn in Hload, Hw. subst o w0. reflexivity. }
  unfold BatchJs.script. rewrite (bind_Return _ _ _ _ _ Hl).
  set (w1 := if negb (bool_decide (is_Some (files w !! "reports"))
                      || bool_decide ("reports" ∈ dirs w))
             then mkWorld (files w) ({["reports"]} ∪ dirs w) (trace w) (tick w)
             else w).
  assert (Hdir : forall k : unit -> M (option unit),
            (present <- existsSync "reports" ;;
             (if negb present then mkdirSync "reports" else ret tt) ;;; k tt)%js w
            = k tt w1).
  { intros k. unfold bind, existsSync. subst w1.
    destruct (bool_decide _ || bool_decide _); reflexivity. }
  rewrite (Hdir (fun _ => _)).
  assert (Ht1 : trace w1 = trace w)
    by (subst w1; destruct (negb _); reflexivity).
  unfold BatchJs.runInBatches.
  destruct (makeBatches_concat urls 1 ltac:(lia) (length urls) 0 ltac:(lia) ltac:(lia))
    as (batches & Hmake & Hcat).
  rewrite Hmake.
  destruct (batchLoop_follows E batches [] w1) as (rs & w2 & Hloop & Hurls).
  destruct (batchLoop_counts E batches [] w1) as (rs' & w2' & Hloop' & Hcalls & _).
  cbn [app] in Hloop. rewrite Hloop in Hloop'. injection Hloop' as <- <-.
  rewrite (bind_Return _ _ _ _ _ Hloop).
  exists rs. eexists. split; [reflexivity |].
  cbn [files trace]. rewrite Hurls, Hcat in *.
  split; [reflexivity |]. split; [apply lookup_insert_eq |].
  rewrite Hcalls, Ht1. reflexivity.
Qed.

Lemma batch_script_completes_witness :
  exists rs w',
    BatchJs.script flakyEnv
      (mkWorld {[ "urls.txt" := "https://example.com" +:+ nl +:+ "httpjunk" ]} ∅ [] 0)
    = (Return (Some tt), w')
    /\ List.map url rs = ["https://example.com"; "httpjunk"]
    /\ files w' !! "lighthouse-results.csv"
       = Some (join nl ("URL,Performance,Accessibility,BestPractices,SEO"
                        :: List.map BatchJs.csvRow rs))
    /\ launchCalls (trace w')
       = (launchCalls (trace (mkWorld {[ "urls.txt" := "https://example.com" +:+ nl +:+ "httpjunk" ]} ∅ [] 0))
          + length ["https://example.com"; "httpjunk"])%nat.
Proof.
  apply (batch_script_completes flakyEnv
           (mkWorld {[ "urls.txt" := "https://example.com" +:+ nl +:+ "httpjunk" ]} ∅ [] 0)
           ["https://example.com"; "httpjunk"]).
  vm_compute. reflexivity.
Defined.

(** ** A negative retry count *)

(** X20: in [index.js], with a negative retry count the retry loop is
    never entered: [runAllTests] launches no browser and writes no file, and
    returns one [undefined] entry per URL. *)
Theorem negative_retries_no_audit
    (E : Env) (options : Options) (urls : list string) (w : World) :
  opt_retries options < 0 ->
  fst (IndexJs.runAllTests E options urls w) = Return (List.map (fun _ => None) urls)
  /\ launchCalls (trace (snd (IndexJs.runAllTests E options urls w))) = launchCalls (trace w)
  /\ files (snd (IndexJs.runAllTests E options urls w)) = files w.
Proof.
  intros HR. unfold IndexJs.runAllTests.
  destruct (testLoop_negative E options (length urls) urls HR 0%nat [] w) as (w' & Hloop).
  pose proof (testLoop_negative_untouched E options (length urls) urls HR 0%nat [] w)
    as (Hf & Hl & _).
  rewrite Hloop in *. cbn [fst snd] in *. auto.
Qed.

Lemma negative_retries_no_audit_witness :
  fst (IndexJs.runAllTests passingEnv negativeOptions
         ["https://example.com"; "https://good.test"] emptyWorld)
  = Return [None; None].
Proof.
  refine (proj1 (negative_retries_no_audit passingEnv negativeOptions
                   ["https://example.com"; "https://good.test"] emptyWorld _)).
  vm_compute. reflexivity.
Defined.

(** ** Reading the summary back *)










(** ** White space around the kept lines *)

Lemma index_kept_line_prefix (E : Env) (content l : string) :
  In l (IndexJs.parseUrlFile E content) ->
  In l (List.map trim (splitLines content)) /\ startsWith "http" l = true.
Proof.
  unfold IndexJs.parseUrlFile. rewrite List.filter_In, andb_true_iff. tauto.
Qed.

Lemma batch_kept_line_prefix (content l : string) :
  In l (BatchJs.parseUrlFile content) ->
  In l (List.map trim (splitLines content)) /\ startsWith "http" l = true.
Proof. unfold BatchJs.parseUrlFile. rewrite List.filter_In. tauto. Qed.


Lemma rev_app_append (a b : string) : String.rev_app a b = String.rev_app a "" +:+ b.
Proof.
  revert b. induction a as [| c a IH]; intros b; [reflexivity |].
  cbn [String.rev_app]. rewrite (IH (String c b)), (IH (String c "")).
  rewrite string_app_assoc. reflexivity.
Qed.

Lemma rev_cons (c : ascii) (s : string) :
  String.rev (String c s) = String.rev s +:+ String c "".
Proof. unfold String.rev. cbn [String.rev_app]. apply rev_app_append. Qed.

Lemma rev_append (a b : string) : String.rev (a +:+ b) = String.rev b +:+ String.rev a.
Proof.
  induction a as [| c a IH].
  - change ("" +:+ b) with b. rewrite string_app_empty_r. reflexivity.
  - change (String c a +:+ b) with (String c (a +:+ b)).
    rewrite !rev_cons, IH, string_app_assoc. reflexivity.
Qed.

Lemma rev_involutive (s : string) : String.rev (String.rev s) = s.
Proof.
  induction s as [| c s IH]; [reflexivity |].
  rewrite rev_cons, rev_append, IH. reflexivity.
Qed.

Lemma trimStart_noSpaceAtHead (s : string) : noSpaceAtHead (trimStart s).
Proof.
  induction s as [| c s IH]; [exact I |].
  cbn [trimStart]. destruct (Ascii.is_space c) eqn:Hc; [exact IH | exact Hc].
Qed.

Lemma trimStart_id (s : string) : noSpaceAtHead s -> trimStart s = s.
Proof. destruct s as [| c s]; [reflexivity |]. cbn. intros ->. reflexivity. Qed.

(** [trimStart] cuts a prefix off. *)
Lemma trimStart_suffix (s : string) : exists ws, s = ws +:+ trimStart s.
Proof.
  induction s as [| c s (ws & IH)]; [exists ""; reflexivity |].
  cbn [trimStart]. destruct (Ascii.is_space c).
  - exists (String c ws). change (String c ws +:+ trimStart s) with (String c (ws +:+ trimStart s)).
    rewrite <- IH. reflexivity.
  - exists "". reflexivity.
Qed.

Lemma noSpaceAtHead_prefix (a b : string) :
  noSpaceAtHead (a +:+ b) -> noSpaceAtHead a.
Proof. destruct a as [| c a]; [intros _; exact I | exact (fun H => H)]. Qed.

(** A trimmed string has white space at neither end, and trimming it again
    gives it back. *)
Lemma trim_trimmed (s : string) :
  noSpaceAtHead (trim s) /\ noSpaceAtHead (String.rev (trim s)) /\ trim (trim s) = trim s.
Proof.
  unfold trim at 1 2.
  set (t := trimStart s). set (r := trimStart (String.rev t)).
  assert (Hr : noSpaceAtHead r) by apply trimStart_noSpaceAtHead.
  assert (Ht : noSpaceAtHead t) by apply trimStart_noSpaceAtHead.
  assert (Hhead : noSpaceAtHead (String.rev r)).
  { destruct (trimStart_suffix (String.rev t)) as (ws & Hws). fold r in Hws.
    apply (f_equal String.rev) in Hws.
    rewrite rev_involutive, rev_append in Hws.
    rewrite Hws in Ht. eapply noSpaceAtHead_prefix. exact Ht. }
  split; [exact Hhead |]. rewrite rev_involutive. split; [exact Hr |].
  change (trim s) with (String.rev r). unfold trim.
  rewrite (trimStart_id _ Hhead), rev_involutive, (trimStart_id _ Hr). reflexivity.
Qed.

(** X22: every line either runner keeps from the URL file starts with
    [http], is not empty, and has white space at neither end (so a carriage
    return left by a line ending is gone): trimming it again changes
    nothing. *)
Theorem kept_lines_are_trimmed (E : Env) (content l : string) :
  In l (IndexJs.parseUrlFile E content) \/ In l (BatchJs.parseUrlFile content) ->
  startsWith "http" l = true
  /\ l <> ""
  /\ noSpaceAtHead l
  /\ noSpaceAtHead (String.rev l)
  /\ trim l = l.
Proof.
  intros Hin.
  assert (Hkept : In l (List.map trim (splitLines content)) /\ startsWith "http" l = true).
  { destruct Hin as [Hin | Hin].
    - apply (index_kept_line_prefix E) in Hin. exact Hin.
    - apply batch_kept_line_prefix in Hin. exact Hin. }
  destruct Hkept as (Hmap & Hhttp).
  apply List.in_map_iff in Hmap as (raw & <- & _).
  destruct (trim_trimmed raw) as (H1 & H2 & H3).
  repeat split; try assumption.
  intros Hempty. rewrite Hempty in Hhttp. discriminate.
Qed.

Lemma kept_lines_are_trimmed_witness :
  startsWith "http" "https://good.test" = true
  /\ "https://good.test" <> ""
  /\ noSpaceAtHead "https://good.test"
  /\ noSpaceAtHead (String.rev "https://good.test")
  /\ trim "https://good.test" = "https://good.test".
Proof.
  apply (kept_lines_are_trimmed passingEnv
           ("  https://good.test" +:+ String "013"%char EmptyString +:+ nl)
           "https://good.test").
  left. vm_compute. left. reflexivity.
Defined.
